(** * sqlsync demo frontend: bootstrap and routing layer ([main.tsx])

    A shallow embedding of [demo/frontend/src/main.tsx]: the coordinator
    configuration derived from [location], the document creator
    [newDocumentId], the view [DocRoute] and the three-entry route table.

    JavaScript strings are sequences of UTF-16 code units; the built-ins
    the file calls ([startsWith], [trim], [encodeURIComponent]) are written
    out on that representation.  Everything the file imports from other
    packages (the identifier codec, [fetch], the console) is a parameter
    or an event of the effect signature.

    Definitions come first, in the order of the file; the properties
    follow. *)

From Stdlib Require Import NArith ZArith Ascii String.
From stdpp Require Import gmap strings list.

Local Open Scope N_scope.

(** ** JavaScript strings *)

Module JS.

(** A string value is its sequence of UTF-16 code units. *)
Abbreviation jsstring := (list N).

(** An ASCII literal of the source as a string value. *)
Definition lit (s : string) : jsstring :=
  map N_of_ascii (list_ascii_of_string s).

Definition code_unit (c : N) : bool := c <? 65536.

Definition high_surrogate (c : N) : bool := (55296 <=? c) && (c <=? 56319).
Definition low_surrogate (c : N) : bool := (56320 <=? c) && (c <=? 57343).

(** Well-formed UTF-16: every code unit is 16 bits wide and every
    surrogate is half of a pair (what [String.prototype.isWellFormed]
    tests). *)
Fixpoint well_formed (s : jsstring) : bool :=
  match s with
  | [] => true
  | c :: rest =>
      if negb (code_unit c) then false
      else if low_surrogate c then false
      else if high_surrogate c then
        match rest with
        | d :: rest' => low_surrogate d && well_formed rest'
        | [] => false
        end
      else well_formed rest
  end.

(** [===] on strings. *)
Definition eqb (s t : jsstring) : bool := bool_decide (s = t).

(** [String.prototype.startsWith]. *)
Fixpoint startsWith (s p : jsstring) {struct p} : bool :=
  match p, s with
  | [], _ => true
  | _ :: _, [] => false
  | b :: p', a :: s' => (a =? b) && startsWith s' p'
  end.

(** WhiteSpace and LineTerminator code points, the ones [trim] strips. *)
Definition white_space (c : N) : bool :=
  ((9 <=? c) && (c <=? 13)) || (c =? 32) || (c =? 160) || (c =? 5760)
  || ((8192 <=? c) && (c <=? 8202)) || (c =? 8232) || (c =? 8233)
  || (c =? 8239) || (c =? 8287) || (c =? 12288) || (c =? 65279).

Fixpoint trimStart (s : jsstring) : jsstring :=
  match s with
  | [] => []
  | c :: rest => if white_space c then trimStart rest else s
  end.

Definition trimEnd (s : jsstring) : jsstring := rev (trimStart (rev s)).

(** [String.prototype.trim]. *)
Definition trim (s : jsstring) : jsstring := trimEnd (trimStart s).

(** *** [encodeURIComponent] *)

Definition ascii_alpha (c : N) : bool :=
  ((65 <=? c) && (c <=? 90)) || ((97 <=? c) && (c <=? 122)).
Definition ascii_digit (c : N) : bool := (48 <=? c) && (c <=? 57).

(** The marks [-_.!~*'()] left as they are. *)
Definition uri_mark (c : N) : bool :=
  (c =? 45) || (c =? 95) || (c =? 46) || (c =? 33) || (c =? 126)
  || (c =? 42) || (c =? 39) || (c =? 40) || (c =? 41).

Definition uri_unescaped (c : N) : bool :=
  ascii_alpha c || ascii_digit c || uri_mark c.

(** The UTF-8 octets of a code point. *)
Definition utf8 (cp : N) : list N :=
  if cp <? 128 then [cp]
  else if cp <? 2048 then
    [N.lor 192 (N.shiftr cp 6); N.lor 128 (N.land cp 63)]
  else if cp <? 65536 then
    [N.lor 224 (N.shiftr cp 12);
     N.lor 128 (N.land (N.shiftr cp 6) 63);
     N.lor 128 (N.land cp 63)]
  else
    [N.lor 240 (N.shiftr cp 18);
     N.lor 128 (N.land (N.shiftr cp 12) 63);
     N.lor 128 (N.land (N.shiftr cp 6) 63);
     N.lor 128 (N.land cp 63)].

(** One upper-case hexadecimal digit. *)
Definition hex_digit (d : N) : N := if d <? 10 then 48 + d else 55 + d.

(** An octet as [%XX]. *)
Definition percent (b : N) : jsstring :=
  [37; hex_digit (b / 16); hex_digit (b mod 16)].

Definition escape (cp : N) : jsstring := concat (map percent (utf8 cp)).

(** The code point of a surrogate pair. *)
Definition pair_code_point (hi lo : N) : N :=
  (hi - 55296) * 1024 + (lo - 56320) + 65536.

(** [encodeURIComponent]: [None] stands for the [URIError] thrown at an
    unpaired surrogate. *)
Fixpoint encodeURIComponent (s : jsstring) : option jsstring :=
  match s with
  | [] => Some []
  | c :: rest =>
      if uri_unescaped c then (c ::.) <$> encodeURIComponent rest
      else if low_surrogate c then None
      else if high_surrogate c then
        match rest with
        | d :: rest' =>
            if low_surrogate d
            then (escape (pair_code_point c d) ++.) <$> encodeURIComponent rest'
            else None
        | [] => None
        end
      else (escape c ++.) <$> encodeURIComponent rest
  end.

End JS.

Import JS.

(** ** What the file imports *)

(** The identifier codec of [@orbitinghail/sqlsync-worker].
    [journalIdFromString] throws on a string it cannot decode: [None]. *)
Class Codec := {
  JournalId : Type;
  journalIdFromString : jsstring -> option JournalId;
  journalIdToString : JournalId -> jsstring;
}.

(** [window.location], as far as the file reads it. *)
Record Location := {
  hostname : jsstring;
  protocol : jsstring;
}.

Inductive Method := GET | POST.

(** A call [fetch(url, { method })]. *)
Record Request := {
  url : jsstring;
  method : Method;
}.

(** A resolved [fetch]: the status line and what [response.text()]
    settles to ([None]: the body cannot be read, the promise rejects). *)
Record Response := {
  status : N;
  text : option jsstring;
}.

(** [response.ok]: a status in the range 200-299.  The file never
    reads it. *)
Definition ok (resp : Response) : bool :=
  (200 <=? status resp) && (status resp <=? 299).

(** What can be thrown (or a promise rejected with) in this file. *)
Inductive Exn :=
| NetworkError                  (* fetch rejects *)
| BodyError                     (* response.text() rejects *)
| URIError                      (* encodeURIComponent *)
| CodecError (input : jsstring) (* journalIdFromString *).

(** ** Effects

    A computation returns, throws, or performs one of the two effects of
    the file and goes on.  The file has no [try], [catch] or [.catch],
    so there is no handler among the constructors: what is thrown
    leaves the computation. *)
Inductive Prog (A : Type) : Type :=
| Ret (a : A)
| Throw (e : Exn)
| Fetch (r : Request) (k : Response -> Prog A)
| ConsoleError (msg : jsstring) (k : Prog A).

Arguments Ret {A} a.
Arguments Throw {A} e.
Arguments Fetch {A} r k.
Arguments ConsoleError {A} msg k.

Fixpoint bind {A B} (p : Prog A) (f : A -> Prog B) : Prog B :=
  match p with
  | Ret a => f a
  | Throw e => Throw e
  | Fetch r k => Fetch r (fun resp => bind (k resp) f)
  | ConsoleError msg k => ConsoleError msg (bind k f)
  end.

#[global] Instance Prog_ret : MRet Prog := @Ret.
#[global] Instance Prog_bind : MBind Prog := fun A B f p => bind p f.

(** [await fetch(url, { method })]. *)
Definition fetch (u : jsstring) (m : Method) : Prog Response :=
  Fetch {| url := u; method := m |} Ret.

(** A synchronous call that may throw. *)
Definition try_call {A} (r : option A) (e : Exn) : Prog A :=
  match r with
  | Some a => Ret a
  | None => Throw e
  end.

(** *** Running a computation *)

Inductive Event :=
| Fetched (r : Request)
| Logged (msg : jsstring).

(** The network: what the [n]-th [fetch] of the process settles to
    ([None]: a network error, the promise rejects). *)
Definition Network := nat -> Request -> option Response.

Inductive Result (A : Type) : Type :=
| Returned (a : A)
| Thrown (e : Exn).

Arguments Returned {A} a.
Arguments Thrown {A} e.

Definition requests (tr : list Event) : list Request :=
  omap (fun e => match e with Fetched r => Some r | Logged _ => None end) tr.

(** [run net p tr]: the result of [p] and the events so far, [tr] being
    the events before [p] started. *)
Fixpoint run {A} (net : Network) (p : Prog A) (tr : list Event)
  : Result A * list Event :=
  match p with
  | Ret a => (Returned a, tr)
  | Throw e => (Thrown e, tr)
  | Fetch r k =>
      match net (length (requests tr)) r with
      | Some resp => run net (k resp) (tr ++ [Fetched r])
      | None => (Thrown NetworkError, tr ++ [Fetched r])
      end
  | ConsoleError msg k => run net k (tr ++ [Logged msg])
  end.

(** ** React and react-router values *)

(** The [params] object of a route match. *)
Abbreviation Params := (gmap jsstring jsstring).

(** [redirect(to)]. *)
Inductive LoaderResult := Redirect (to : jsstring).

(** The two elements [DocRoute] returns. *)
Inductive Element `{Codec} :=
| Pre (color : jsstring) (children : jsstring)
| App (docId : JournalId).

(** A value that is a string or [undefined], narrowed by a truthiness
    test: [undefined] and the empty string are falsy. *)
Definition truthy (v : option jsstring) : option jsstring :=
  match v with
  | Some (c :: s) => Some (c :: s)
  | _ => None
  end.

(** *** Route matching

    react-router compiles a route path to a regular expression: a
    leading slash, the segments separated by slashes, [:name] standing
    for one non-empty segment without a slash whose text becomes
    [params.name], any number of trailing slashes, letter case of the
    fixed segments ignored.  The pathname is the one the router matches
    on, its segments percent-decoded already.  The router hands over an
    encoded slash inside a segment as a slash inside the param: such
    params are not pathnames of this model, and what a loader does is
    stated on the [params] object it receives, whatever it holds. *)

Definition slash : N := 47.
Definition colon : N := 58.

(** [s.split("/")]. *)
Fixpoint split (s : jsstring) : list jsstring :=
  match s with
  | [] => [[]]
  | c :: rest =>
      if c =? slash then [] :: split rest
      else match split rest with
           | seg :: segs => (c :: seg) :: segs
           | [] => [[c]]
           end
  end.

Fixpoint strip_empty (segs : list jsstring) : list jsstring :=
  match segs with
  | [] :: rest => strip_empty rest
  | _ => segs
  end.

(** The segments between the leading slash and the trailing slashes. *)
Definition segments (pathname : jsstring) : option (list jsstring) :=
  match split pathname with
  | [] :: segs => Some (rev (strip_empty (rev segs)))
  | _ => None
  end.

Definition upper (c : N) : N :=
  if (97 <=? c) && (c <=? 122) then c - 32 else c.

Fixpoint match_segments (pattern segs : list jsstring) (params : Params)
  : option Params :=
  match pattern, segs with
  | [], [] => Some params
  | p :: pattern', seg :: segs' =>
      match p with
      | c :: name =>
          if c =? colon then
            match seg with
            | [] => None
            | _ :: _ => match_segments pattern' segs' (<[name := seg]> params)
            end
          else if eqb (map upper p) (map upper seg)
               then match_segments pattern' segs' params
               else None
      | [] => None
      end
  | _, _ => None
  end.

Definition matchPath (pattern pathname : jsstring) : option Params :=
  pat ← segments pattern;
  segs ← segments pathname;
  match_segments pat segs ∅.

(** ** The file *)

Section Main.

Context `{Codec} (location : Location).

Definition isLocalhost : bool :=
  eqb (hostname location) (lit "localhost")
  || startsWith (hostname location) (lit "192.168").

Definition COORDINATOR_URL : jsstring :=
  if isLocalhost
  then hostname location ++ lit ":8787"
  else lit "sqlsync.orbitinghail.workers.dev".

Definition COORDINATOR_URL_WS : jsstring :=
  (if isLocalhost then lit "ws" else lit "wss") ++ lit "://" ++ COORDINATOR_URL.

(** [name = ""]: an argument left out or [undefined] is the empty
    string.  The second [url] is the first after [url += ...]. *)
Definition newDocumentId (arg : option jsstring) : Prog JournalId :=
  let name := default [] arg in
  let url := protocol location ++ lit "//" ++ COORDINATOR_URL ++ lit "/new" in
  url ← (if (0 <? length (trim name))%nat
         then e ← try_call (encodeURIComponent name) URIError;
              Ret (url ++ lit "/" ++ e)
         else Ret url);
  response ← fetch url POST;
  body ← try_call (text response) BodyError;
  try_call (journalIdFromString body) (CodecError body).

(** [useParams()] gives the [params] of the match. *)
Definition DocRoute (params : Params) : Prog Element :=
  match truthy (params !! lit "docId") with
  | None =>
      ConsoleError (lit "doc id not found in params")
        (Ret (Pre (lit "red") (lit "ERROR: doc id not found in params")))
  | Some docId =>
      id ← try_call (journalIdFromString docId) (CodecError docId);
      Ret (App id)
  end.

Inductive Handler :=
| loader (f : Params -> Prog LoaderResult)
| element (f : Params -> Prog Element).

Record Route := {
  path : jsstring;
  handler : Handler;
}.

Definition router : list Route := [
  {| path := lit "/";
     handler := loader (fun _ =>
       docId ← newDocumentId None;
       Ret (Redirect (lit "/" ++ journalIdToString docId))) |};
  {| path := lit "/named/:name";
     handler := loader (fun params =>
       docId ← newDocumentId (params !! lit "name");
       Ret (Redirect (lit "/" ++ journalIdToString docId))) |};
  {| path := lit "/:docId";
     handler := element DocRoute |}
].

(** The route whose path matches, with its [params]. *)
Fixpoint matchRoutes (routes : list Route) (pathname : jsstring)
  : option (Route * Params) :=
  match routes with
  | [] => None
  | r :: rest =>
      match matchPath (path r) pathname with
      | Some params => Some (r, params)
      | None => matchRoutes rest pathname
      end
  end.

(** What a navigation ends in: the redirect a loader returned, the
    element a route rendered, or no route at all. *)
Inductive Outcome :=
| Redirected (r : LoaderResult)
| Rendered (el : Element)
| NoMatch.

Definition navigate (pathname : jsstring) : Prog Outcome :=
  match matchRoutes router pathname with
  | Some (r, params) =>
      match handler r with
      | loader f => res ← f params; Ret (Redirected res)
      | element f => el ← f params; Ret (Rendered el)
      end
  | None => Ret NoMatch
  end.

(** *** The running page

    [<SQLSyncProvider coordinatorUrl={COORDINATOR_URL_WS}>] is mounted
    once around [<RouterProvider>]; navigations happen below it. *)
Record Page := {
  coordinatorUrl : jsstring;
  events : list Event;
  shown : option (Result Outcome);
}.

Definition mount : Page :=
  {| coordinatorUrl := COORDINATOR_URL_WS; events := []; shown := None |}.

Definition visit (net : Network) (pg : Page) (pathname : jsstring) : Page :=
  let (res, tr) := run net (navigate pathname) (events pg) in
  {| coordinatorUrl := coordinatorUrl pg; events := tr; shown := Some res |}.

Definition browse (net : Network) (pathnames : list jsstring) : Page :=
  foldl (visit net) mount pathnames.

End Main.

(** ** Vocabulary of the properties *)

(** One path segment: not empty, no slash in it. *)
Definition segment (s : jsstring) : bool :=
  match s with
  | [] => false
  | _ :: _ => forallb (fun c => negb (c =? slash)) s
  end.

(** What one [fetch] followed by the decoding of its body comes to,
    after the events [tr]. *)
Definition settled `{Codec} (net : Network) (tr : list Event) (req : Request)
  : Result JournalId * list Event :=
  (match net (length (requests tr)) req with
   | None => Thrown NetworkError
   | Some resp =>
       match text resp with
       | None => Thrown BodyError
       | Some body =>
           match journalIdFromString body with
           | None => Thrown (CodecError body)
           | Some id => Returned id
           end
       end
   end, tr ++ [Fetched req]).

(** What a loader makes of the creator's result. *)
Definition redirected `{Codec} (r : Result JournalId) : Result Outcome :=
  match r with
  | Returned id => Returned (Redirected (Redirect (lit "/" ++ journalIdToString id)))
  | Thrown e => Thrown e
  end.

(** What a loader returns for the creator's result. *)
Definition redirect_to `{Codec} (r : Result JournalId) : Result LoaderResult :=
  match r with
  | Returned id => Returned (Redirect (lit "/" ++ journalIdToString id))
  | Thrown e => Thrown e
  end.

(** *** Sample values

    A codec for examples: an identifier is a non-empty string of ASCII
    letters and digits, and it is its own string form. *)
Definition alnum (s : jsstring) : bool :=
  forallb (fun c => ascii_alpha c || ascii_digit c) s.

#[local] Instance sample_codec : Codec := {|
  JournalId := jsstring;
  journalIdFromString s :=
    match s with
    | [] => None
    | _ :: _ => if alnum s then Some s else None
    end;
  journalIdToString id := id;
|}.

Definition sample_location : Location :=
  {| hostname := lit "app.example.com"; protocol := lit "https:" |}.

(** A coordinator that answers every request with the same status and
    body. *)
Definition replying (st : N) (body : string) : Network :=
  fun _ _ => Some {| status := st; text := Some (lit body) |}.

Definition sample_net (body : string) : Network := replying 200 body.

(** *** Names, traces and sessions *)

(** A name of white space only, the empty one included. *)
Definition blank (s : jsstring) : bool := forallb white_space s.

(** The console lines of a trace. *)
Definition logs (tr : list Event) : list jsstring :=
  omap (fun e => match e with Logged msg => Some msg | Fetched _ => None end) tr.

(** A request of the kind [newDocumentId] makes: a POST to [/new] of the
    coordinator itself, or to one segment below it. *)
Definition to_coordinator (location : Location) (req : Request) : Prop :=
  method req = POST
  /\ (url req = protocol location ++ lit "//" ++ COORDINATOR_URL location
                ++ lit "/new"
      \/ exists e,
           segment e = true
           /\ url req = protocol location ++ lit "//" ++ COORDINATOR_URL location
                        ++ lit "/new/" ++ e).

(** The loader of the route of a table that has the given path. *)
Fixpoint loader_at `{Codec} (routes : list Route) (p : jsstring)
  : option (Params -> Prog LoaderResult) :=
  match routes with
  | [] => None
  | r :: rest =>
      if eqb (path r) p
      then match handler r with
           | loader f => Some f
           | element _ => None
           end
      else loader_at rest p
  end.

(** Characters that have no meaning of their own in a URL: the ones
    [encodeURIComponent] leaves alone, and the percent sign. *)
Definition uri_safe (c : N) : bool := uri_unescaped c || (c =? 37).

(** A Unicode scalar value: a code point that is not a surrogate. *)
Definition scalar (cp : N) : bool :=
  (cp <? 1114112) && negb ((55296 <=? cp) && (cp <=? 57343)).

(** *** [decodeURIComponent]

    The inverse built-in, which the receiver of the request applies to
    the name segment. *)

(** The value of a hexadecimal digit, of either case. *)
Definition hex_value (c : N) : option N :=
  if (48 <=? c) && (c <=? 57) then Some (c - 48)
  else if (65 <=? c) && (c <=? 70) then Some (c - 55)
  else if (97 <=? c) && (c <=? 102) then Some (c - 87)
  else None.

(** [%XX] at the head of a string: the octet and what follows it. *)
Definition read_octet (s : jsstring) : option (N * jsstring) :=
  match s with
  | p :: h :: l :: rest =>
      if p =? 37
      then hi ← hex_value h; lo ← hex_value l; Some (16 * hi + lo, rest)
      else None
  | _ => None
  end.

(** An escaped continuation octet [10xxxxxx]: its six bits. *)
Definition read_continuation (s : jsstring) : option (N * jsstring) :=
  '(b, rest) ← read_octet s;
  if (128 <=? b) && (b <=? 191) then Some (b - 128, rest) else None.

(** The code point whose UTF-8 encoding starts with the octet [b] and
    goes on in the escapes at the head of [rest]; overlong forms,
    surrogates and values above U+10FFFF are not valid UTF-8. *)
Definition read_code_point (b : N) (rest : jsstring) : option (N * jsstring) :=
  if b <? 128 then Some (b, rest)
  else if b <? 192 then None
  else if b <? 224 then
    '(x, r1) ← read_continuation rest;
    let cp := (b - 192) * 64 + x in
    if cp <? 128 then None else Some (cp, r1)
  else if b <? 240 then
    '(x, r1) ← read_continuation rest;
    '(y, r2) ← read_continuation r1;
    let cp := (b - 224) * 4096 + x * 64 + y in
    if (cp <? 2048) || ((55296 <=? cp) && (cp <=? 57343)) then None
    else Some (cp, r2)
  else if b <? 248 then
    '(x, r1) ← read_continuation rest;
    '(y, r2) ← read_continuation r1;
    '(z, r3) ← read_continuation r2;
    let cp := (b - 240) * 262144 + x * 4096 + y * 64 + z in
    if (cp <? 65536) || (1114111 <? cp) then None else Some (cp, r3)
  else None.

(** The UTF-16 code units of a code point. *)
Definition utf16 (cp : N) : jsstring :=
  if cp <? 65536 then [cp]
  else [55296 + (cp - 65536) / 1024; 56320 + (cp - 65536) mod 1024].

(** At most [fuel] steps of decoding; a step consumes one character or
    one escaped code point. *)
Fixpoint decode (fuel : nat) (s : jsstring) : option jsstring :=
  match s with
  | [] => Some []
  | c :: rest =>
      match fuel with
      | O => None
      | S fuel' =>
          if c =? 37 then
            '(b, r) ← read_octet s;
            '(cp, r') ← read_code_point b r;
            (utf16 cp ++.) <$> decode fuel' r'
          else (c ::.) <$> decode fuel' rest
      end
  end.

(** [decodeURIComponent]: [None] stands for the [URIError] thrown at a
    malformed escape.  A string has at least as many characters as
    decoding it takes steps. *)
Definition decodeURIComponent (s : jsstring) : option jsstring :=
  decode (length s) s.

(** *** Enumeration *)

(** [f] on the [n] numbers from [a] on. *)
Fixpoint all_from (f : N -> bool) (a : N) (n : nat) : bool :=
  match n with
  | O => true
  | S k => f a && all_from f (N.succ a) k
  end.

(** * Properties *)

(** ** Strings *)

(** Boolean tests on code units as arithmetic facts. *)
Ltac unbool :=
  rewrite ?orb_true_iff, ?andb_true_iff, ?orb_false_iff, ?andb_false_iff,
    ?negb_true_iff, ?negb_false_iff,
    ?N.leb_le, ?N.ltb_lt, ?N.eqb_eq, ?N.leb_gt, ?N.ltb_ge, ?N.eqb_neq in *.

Example trim_plan : trim (lit "  plan ") = lit "plan".
Proof. reflexivity. Qed.

Example trim_blank : trim (9 :: 160 :: 8232 :: lit "  ") = [].
Proof. reflexivity. Qed.

Example encode_plan : encodeURIComponent (lit " plan") = Some (lit "%20plan").
Proof. reflexivity. Qed.

(** e-acute, the euro sign and U+1F600 as a surrogate pair. *)
Example encode_unicode :
  encodeURIComponent [233; 8364; 55357; 56832]
  = Some (lit "%C3%A9%E2%82%AC%F0%9F%98%80").
Proof. reflexivity. Qed.

Example encode_unpaired : encodeURIComponent [55357; 97] = None.
Proof. reflexivity. Qed.

Lemma startsWith_prefix (s p : jsstring) :
  startsWith s p = true <-> exists rest, s = p ++ rest.
Proof.
  revert s. induction p as [| b p IH]; intros s; simpl.
  - split; [eauto | reflexivity].
  - destruct s as [| a s].
    + split; [discriminate | intros [rest E]; discriminate].
    + rewrite andb_true_iff, N.eqb_eq, IH. split.
      * intros [-> [rest ->]]. eauto.
      * intros [rest E]. injection E as -> ->. eauto.
Qed.

Lemma uri_unescaped_ascii (c : N) : uri_unescaped c = true -> c < 128.
Proof.
  unfold uri_unescaped, ascii_alpha, ascii_digit, uri_mark. unbool. lia.
Qed.

Lemma surrogate_not_ascii (c : N) :
  c < 128 -> low_surrogate c = false /\ high_surrogate c = false.
Proof. unfold low_surrogate, high_surrogate. unbool. lia. Qed.

Lemma encodeURIComponent_total_aux (n : nat) (s : jsstring) :
  (length s <= n)%nat -> well_formed s = true -> is_Some (encodeURIComponent s).
Proof.
  revert s. induction n as [| n IH]; intros s Hlen Hwf.
  - destruct s; [eexists; reflexivity | simpl in Hlen; lia].
  - destruct s as [| c rest]; [eexists; reflexivity |].
    simpl in Hlen, Hwf |- *.
    destruct (uri_unescaped c) eqn:Hu.
    + destruct (code_unit c); [| discriminate]. simpl in Hwf.
      destruct (surrogate_not_ascii c (uri_unescaped_ascii c Hu)) as [Hl Hh].
      rewrite Hl, Hh in Hwf.
      destruct (IH rest) as [e He]; [lia | assumption |].
      rewrite He. eexists; reflexivity.
    + destruct (code_unit c); [| discriminate]. simpl in Hwf.
      destruct (low_surrogate c); [discriminate |].
      destruct (high_surrogate c).
      * destruct rest as [| d rest']; [discriminate |].
        apply andb_prop in Hwf as [Hd Hwf]. rewrite Hd.
        destruct (IH rest') as [e He]; [simpl in Hlen; lia | assumption |].
        rewrite He. eexists; reflexivity.
      * destruct (IH rest) as [e He]; [lia | assumption |].
        rewrite He. eexists; reflexivity.
Qed.

(** [encodeURIComponent] does not throw on a well-formed string. *)
Lemma encodeURIComponent_total (s : jsstring) :
  well_formed s = true -> is_Some (encodeURIComponent s).
Proof. apply (encodeURIComponent_total_aux (length s)). lia. Qed.

(** The output of [encodeURIComponent] has no slash in it. *)
Lemma hex_digit_not_slash (d : N) : negb (hex_digit d =? slash) = true.
Proof.
  unfold hex_digit, slash. destruct (d <? 10) eqn:E; unbool; lia.
Qed.

Lemma percent_no_slash (b : N) :
  forallb (fun c => negb (c =? slash)) (percent b) = true.
Proof.
  unfold percent. simpl. rewrite !hex_digit_not_slash. reflexivity.
Qed.

Lemma escape_no_slash (cp : N) :
  forallb (fun c => negb (c =? slash)) (escape cp) = true.
Proof.
  unfold escape. induction (utf8 cp) as [| b bs IH]; [reflexivity |].
  cbn [map concat]. rewrite forallb_app, percent_no_slash, IH. reflexivity.
Qed.

Lemma escape_not_nil (cp : N) : escape cp <> [].
Proof.
  unfold escape, utf8.
  repeat match goal with |- context [if ?b then _ else _] => destruct b end;
    discriminate.
Qed.

Lemma encodeURIComponent_no_slash_aux (n : nat) (s e : jsstring) :
  (length s <= n)%nat ->
  encodeURIComponent s = Some e ->
  forallb (fun c => negb (c =? slash)) e = true.
Proof.
  revert s e. induction n as [| n IH]; intros s e Hlen He.
  - destruct s; [| simpl in Hlen; lia]. injection He as <-. reflexivity.
  - destruct s as [| c rest]; [injection He as <-; reflexivity |].
    simpl in Hlen, He.
    destruct (uri_unescaped c) eqn:Hu.
    + destruct (encodeURIComponent rest) as [e' |] eqn:He'; [| discriminate].
      injection He as <-. simpl. rewrite (IH rest e') by (lia || assumption).
      apply andb_true_intro. split; [| reflexivity].
      revert Hu. unfold uri_unescaped, ascii_alpha, ascii_digit, uri_mark, slash.
      unbool. lia.
    + destruct (low_surrogate c); [discriminate |].
      destruct (high_surrogate c).
      * destruct rest as [| d rest']; [discriminate |].
        destruct (low_surrogate d); [| discriminate].
        destruct (encodeURIComponent rest') as [e' |] eqn:He'; [| discriminate].
        injection He as <-. rewrite forallb_app, escape_no_slash.
        apply (IH rest' e'); [simpl in Hlen; lia | assumption].
      * destruct (encodeURIComponent rest) as [e' |] eqn:He'; [| discriminate].
        injection He as <-. rewrite forallb_app, escape_no_slash.
        apply (IH rest e'); [lia | assumption].
Qed.

Lemma encodeURIComponent_not_nil (s e : jsstring) :
  s <> [] -> encodeURIComponent s = Some e -> e <> [].
Proof.
  destruct s as [| c rest]; [contradiction |]. intros _. simpl.
  destruct (uri_unescaped c).
  - destruct (encodeURIComponent rest); [| discriminate].
    intros E. injection E as <-. discriminate.
  - destruct (low_surrogate c); [discriminate |].
    destruct (high_surrogate c).
    + destruct rest as [| d rest']; [discriminate |].
      destruct (low_surrogate d); [| discriminate].
      destruct (encodeURIComponent rest'); [| discriminate].
      intros E. injection E as <-. intros E.
      apply app_eq_nil in E as [E _]. exact (escape_not_nil _ E).
    + destruct (encodeURIComponent rest); [| discriminate].
      intros E. injection E as <-. intros E.
      apply app_eq_nil in E as [E _]. exact (escape_not_nil _ E).
Qed.

(** A non-empty string encodes to one path segment. *)
Lemma encodeURIComponent_segment (s e : jsstring) :
  s <> [] -> encodeURIComponent s = Some e -> segment e = true.
Proof.
  intros Hs He.
  pose proof (encodeURIComponent_not_nil s e Hs He) as Hne.
  pose proof (encodeURIComponent_no_slash_aux (length s) s e (le_n _) He) as Hsl.
  destruct e; [contradiction | exact Hsl].
Qed.

(** ** Pathnames and route matching *)

Lemma split_no_slash (s : jsstring) :
  forallb (fun c => negb (c =? slash)) s = true -> split s = [s].
Proof.
  induction s as [| c s IH]; simpl; intros E; [reflexivity |].
  apply andb_prop in E as [Hc Hs]. apply negb_true_iff in Hc.
  rewrite Hc, (IH Hs). reflexivity.
Qed.

Lemma split_at_slash (s t : jsstring) :
  forallb (fun c => negb (c =? slash)) s = true ->
  split (s ++ slash :: t) = s :: split t.
Proof.
  induction s as [| c s IH]; simpl; intros E; [reflexivity |].
  apply andb_prop in E as [Hc Hs]. apply negb_true_iff in Hc.
  rewrite Hc, (IH Hs). reflexivity.
Qed.

Lemma segment_no_slash (s : jsstring) :
  segment s = true -> forallb (fun c => negb (c =? slash)) s = true.
Proof. destruct s; [discriminate | trivial]. Qed.

Lemma segment_cons (s : jsstring) :
  segment s = true -> exists c t, s = c :: t.
Proof. destruct s as [| c t]; [discriminate | eauto]. Qed.

Lemma segments_one (s : jsstring) :
  segment s = true -> segments (slash :: s) = Some [s].
Proof.
  intros Hs. unfold segments. simpl.
  rewrite (split_no_slash s (segment_no_slash s Hs)).
  destruct (segment_cons s Hs) as (c & t & ->). reflexivity.
Qed.

Lemma segments_two (a b : jsstring) :
  segment a = true -> segment b = true ->
  segments (slash :: a ++ slash :: b) = Some [a; b].
Proof.
  intros Ha Hb. unfold segments. simpl.
  rewrite (split_at_slash a b (segment_no_slash a Ha)).
  rewrite (split_no_slash b (segment_no_slash b Hb)).
  destruct (segment_cons b Hb) as (c & t & ->). reflexivity.
Qed.

(** A path matches only patterns of as many segments. *)
Lemma match_segments_length (pattern segs : list jsstring) (params : Params) :
  length pattern <> length segs -> match_segments pattern segs params = None.
Proof.
  revert segs params.
  induction pattern as [| p pattern IH]; intros [| seg segs] params Hlen;
    simpl in *; try congruence.
  destruct p as [| c name]; [reflexivity |].
  destruct (c =? colon).
  - destruct seg; [reflexivity |]. apply IH. congruence.
  - destruct (eqb _ _); [| reflexivity]. apply IH. congruence.
Qed.

Lemma matchPath_length (pattern pathname : jsstring) (params : Params) :
  matchPath pattern pathname = Some params ->
  exists pat segs,
    segments pattern = Some pat /\ segments pathname = Some segs
    /\ length pat = length segs.
Proof.
  unfold matchPath. intros E.
  destruct (segments pattern) as [pat |]; [| discriminate].
  destruct (segments pathname) as [segs |]; [| discriminate].
  exists pat, segs. split; [reflexivity | split; [reflexivity |]].
  destruct (decide (length pat = length segs)) as [L | L]; [exact L |].
  cbn in E. rewrite (match_segments_length pat segs ∅ L) in E. discriminate.
Qed.

Section Matching.

Context `{Codec} (location : Location).

(** X7: the three paths of the table have zero, two and one segments:
    no pathname matches two of them, so that the order in which the
    router ranks them does not matter. *)
Lemma router_unambiguous (pathname : jsstring) (i j : nat) (r1 r2 : Route)
    (p1 p2 : Params) :
  router location !! i = Some r1 ->
  router location !! j = Some r2 ->
  matchPath (path r1) pathname = Some p1 ->
  matchPath (path r2) pathname = Some p2 ->
  i = j.
Proof.
  intros Hi Hj M1 M2.
  apply matchPath_length in M1 as (pat1 & segs1 & P1 & S1 & L1).
  apply matchPath_length in M2 as (pat2 & segs2 & P2 & S2 & L2).
  rewrite S1 in S2. injection S2 as <-.
  destruct i as [| [| [| i]]]; [| | | discriminate Hi];
    injection Hi as <-; injection P1 as <-;
    (destruct j as [| [| [| j]]]; [| | | discriminate Hj]);
    injection Hj as <-; injection P2 as <-;
    simpl in L1, L2; congruence.
Qed.

Lemma matchPath_one (pattern s : jsstring) :
  segment s = true ->
  matchPath pattern (lit "/" ++ s)
  = pat ← segments pattern; match_segments pat [s] ∅.
Proof.
  intros Hs. unfold matchPath.
  change (lit "/" ++ s) with (slash :: s). rewrite (segments_one s Hs).
  reflexivity.
Qed.

Lemma matchPath_two (pattern a b : jsstring) :
  segment a = true -> segment b = true ->
  matchPath pattern (lit "/" ++ a ++ lit "/" ++ b)
  = pat ← segments pattern; match_segments pat [a; b] ∅.
Proof.
  intros Ha Hb. unfold matchPath.
  change (lit "/" ++ a ++ lit "/" ++ b) with (slash :: a ++ slash :: b).
  rewrite (segments_two a b Ha Hb). reflexivity.
Qed.

Lemma matchRoutes_root :
  matchRoutes (router location) (lit "/")
  = (fun r => (r, ∅)) <$> router location !! 0%nat.
Proof. reflexivity. Qed.

Lemma matchRoutes_named (name : jsstring) :
  segment name = true ->
  matchRoutes (router location) (lit "/named/" ++ name)
  = (fun r => (r, {[ lit "name" := name ]})) <$> router location !! 1%nat.
Proof.
  intros Hn. unfold router. cbn [matchRoutes path].
  change (lit "/named/" ++ name) with (lit "/" ++ lit "named" ++ lit "/" ++ name).
  rewrite !matchPath_two by (assumption || reflexivity).
  destruct (segment_cons name Hn) as (c & t & ->).
  reflexivity.
Qed.

Lemma matchRoutes_docId (s : jsstring) :
  segment s = true ->
  matchRoutes (router location) (lit "/" ++ s)
  = (fun r => (r, {[ lit "docId" := s ]})) <$> router location !! 2%nat.
Proof.
  intros Hs. unfold router. cbn [matchRoutes path].
  rewrite !matchPath_one by assumption.
  change (segments (lit "/named/:name")) with (Some [lit "named"; lit ":name"]).
  cbn [mbind option_bind].
  rewrite (match_segments_length [_; _] [_]) by (simpl; congruence).
  destruct (segment_cons s Hs) as (c & t & ->).
  reflexivity.
Qed.

End Matching.

(** ** Running computations *)

Lemma run_bind {A B} (net : Network) (p : Prog A) (f : A -> Prog B) tr :
  run net (bind p f) tr =
  match run net p tr with
  | (Returned a, tr') => run net (f a) tr'
  | (Thrown e, tr') => (Thrown e, tr')
  end.
Proof.
  revert tr. induction p as [a | e | r k IH | msg k IH]; intros tr; simpl.
  - reflexivity.
  - reflexivity.
  - destruct (net _ r) as [resp |]; [apply IH | reflexivity].
  - apply IH.
Qed.

Lemma requests_app tr1 tr2 : requests (tr1 ++ tr2) = requests tr1 ++ requests tr2.
Proof. unfold requests. apply omap_app. Qed.

Lemma length_pos_nil {A} (l : list A) : (0 <? length l)%nat = false <-> l = [].
Proof.
  destruct l; simpl; split; intros E; try reflexivity; discriminate.
Qed.

Section Running.

Context `{Codec} (location : Location) (net : Network).

Lemma requests_settled tr req :
  requests (settled net tr req).2 = requests tr ++ [req].
Proof. unfold settled. simpl. apply requests_app. Qed.

Lemma run_fetch_decode tr u :
  run net (response ← fetch u POST;
           body ← try_call (text response) BodyError;
           try_call (journalIdFromString body) (CodecError body)) tr
  = settled net tr {| url := u; method := POST |}.
Proof.
  unfold settled. simpl.
  destruct (net _ _) as [resp |]; [| reflexivity].
  simpl. destruct (text resp) as [body |]; [| reflexivity].
  simpl. destruct (journalIdFromString body); reflexivity.
Qed.

(** The three ways [newDocumentId] can go. *)
Lemma newDocumentId_blank arg tr :
  trim (default [] arg) = [] ->
  run net (newDocumentId location arg) tr
  = settled net tr
      {| url := protocol location ++ lit "//" ++ COORDINATOR_URL location
                ++ lit "/new";
         method := POST |}.
Proof.
  intros E. unfold newDocumentId. rewrite E. simpl.
  apply run_fetch_decode.
Qed.

Lemma newDocumentId_named arg tr e :
  trim (default [] arg) <> [] ->
  encodeURIComponent (default [] arg) = Some e ->
  run net (newDocumentId location arg) tr
  = settled net tr
      {| url := protocol location ++ lit "//" ++ COORDINATOR_URL location
                ++ lit "/new/" ++ e;
         method := POST |}.
Proof.
  intros E He. unfold newDocumentId.
  destruct (0 <? length (trim (default [] arg)))%nat eqn:L.
  - rewrite He.
    replace (protocol location ++ lit "//" ++ COORDINATOR_URL location
             ++ lit "/new/" ++ e)
      with ((protocol location ++ lit "//" ++ COORDINATOR_URL location
             ++ lit "/new") ++ lit "/" ++ e)
      by (rewrite <- !app_assoc; reflexivity).
    apply run_fetch_decode.
  - apply length_pos_nil in L. contradiction.
Qed.

Lemma newDocumentId_throws arg tr :
  trim (default [] arg) <> [] ->
  encodeURIComponent (default [] arg) = None ->
  run net (newDocumentId location arg) tr = (Thrown URIError, tr).
Proof.
  intros E He. unfold newDocumentId.
  destruct (0 <? length (trim (default [] arg)))%nat eqn:L.
  - rewrite He. reflexivity.
  - apply length_pos_nil in L. contradiction.
Qed.

Lemma newDocumentId_cases (arg : option jsstring) :
  run net (newDocumentId location arg) [] = (Thrown URIError, [])
  \/ exists path,
       run net (newDocumentId location arg) []
       = settled net []
           {| url := protocol location ++ lit "//" ++ COORDINATOR_URL location
                     ++ path;
              method := POST |}.
Proof.
  destruct (decide (trim (default [] arg) = [])) as [E | E].
  - right. exists (lit "/new"). apply newDocumentId_blank, E.
  - destruct (encodeURIComponent (default [] arg)) as [e |] eqn:He.
    + right. exists (lit "/new/" ++ e). apply newDocumentId_named; assumption.
    + left. apply newDocumentId_throws; assumption.
Qed.

Lemma run_redirect (p : Prog JournalId) tr :
  run net (docId ← p; Ret (Redirect (lit "/" ++ journalIdToString docId))) tr
  = (redirect_to (run net p tr).1, (run net p tr).2).
Proof.
  unfold mbind, Prog_bind. rewrite run_bind.
  destruct (run net p tr) as [[id | e] tr']; reflexivity.
Qed.

Lemma run_loader (p : Prog JournalId) tr :
  run net (res ← (docId ← p; Ret (Redirect (lit "/" ++ journalIdToString docId)));
           Ret (Redirected res)) tr
  = (redirected (run net p tr).1, (run net p tr).2).
Proof.
  unfold mbind, Prog_bind. rewrite !run_bind.
  destruct (run net p tr) as [[id | e] tr']; reflexivity.
Qed.

Lemma run_navigate_root tr :
  run net (navigate location (lit "/")) tr
  = (redirected (run net (newDocumentId location None) tr).1,
     (run net (newDocumentId location None) tr).2).
Proof. apply run_loader. Qed.

Lemma run_navigate_named name tr :
  segment name = true ->
  run net (navigate location (lit "/named/" ++ name)) tr
  = (redirected (run net (newDocumentId location (Some name)) tr).1,
     (run net (newDocumentId location (Some name)) tr).2).
Proof.
  intros Hn. unfold navigate. rewrite (matchRoutes_named location name Hn).
  unfold router. cbn [lookup list_lookup fmap option_fmap option_map handler].
  rewrite lookup_singleton_eq. apply run_loader.
Qed.

Lemma run_navigate_docId s tr :
  segment s = true ->
  run net (navigate location (lit "/" ++ s)) tr
  = match journalIdFromString s with
    | Some id => (Returned (Rendered (App id)), tr)
    | None => (Thrown (CodecError s), tr)
    end.
Proof.
  intros Hs. unfold navigate. rewrite (matchRoutes_docId location s Hs).
  unfold router. cbn [lookup list_lookup fmap option_fmap option_map handler].
  unfold DocRoute. rewrite lookup_singleton_eq.
  destruct (segment_cons s Hs) as (c & t & ->). cbn [truthy].
  destruct (journalIdFromString (c :: t)); reflexivity.
Qed.

Lemma visit_coordinatorUrl pg pathname :
  coordinatorUrl (visit location net pg pathname) = coordinatorUrl pg.
Proof.
  unfold visit. destruct (run net _ _). reflexivity.
Qed.

Lemma foldl_visit_coordinatorUrl pathnames pg :
  coordinatorUrl (foldl (visit location net) pg pathnames) = coordinatorUrl pg.
Proof.
  revert pg. induction pathnames as [| p ps IH]; intros pg; simpl.
  - reflexivity.
  - rewrite IH. apply visit_coordinatorUrl.
Qed.

End Running.

(** ** The coordinator configuration *)

(** C3: the hostname is local exactly when it is "localhost" or starts
    with "192.168"; the WebSocket URL is ws://{hostname}:8787 for a local
    hostname and wss://sqlsync.orbitinghail.workers.dev otherwise; and
    the URL the synchronization provider was mounted with is this value
    after any sequence of navigations. *)
Theorem coordinator_ws_url `{Codec} (location : Location) (net : Network)
    (pathnames : list jsstring) :
  (isLocalhost location = true <->
     hostname location = lit "localhost"
     \/ exists rest, hostname location = lit "192.168" ++ rest)
  /\ COORDINATOR_URL_WS location
     = (if isLocalhost location
        then lit "ws://" ++ hostname location ++ lit ":8787"
        else lit "wss://sqlsync.orbitinghail.workers.dev")
  /\ coordinatorUrl (browse location net pathnames) = COORDINATOR_URL_WS location.
Proof.
  split; [| split].
  - unfold isLocalhost, eqb.
    rewrite orb_true_iff, bool_decide_eq_true, startsWith_prefix. reflexivity.
  - unfold COORDINATOR_URL_WS, COORDINATOR_URL.
    destruct (isLocalhost location); reflexivity.
  - unfold browse. rewrite foldl_visit_coordinatorUrl. reflexivity.
Qed.

Example ws_url_private :
  COORDINATOR_URL_WS {| hostname := lit "192.168.1.5"; protocol := lit "http:" |}
  = lit "ws://192.168.1.5:8787".
Proof. reflexivity. Qed.

Example ws_url_public :
  COORDINATOR_URL_WS {| hostname := lit "app.example.com"; protocol := lit "https:" |}
  = lit "wss://sqlsync.orbitinghail.workers.dev".
Proof. reflexivity. Qed.

(** The prefix test is on characters, not on address octets. *)
Example ws_url_prefix_only :
  COORDINATOR_URL_WS {| hostname := lit "192.168evil.example"; protocol := lit "https:" |}
  = lit "ws://192.168evil.example:8787".
Proof. reflexivity. Qed.

(** ** The document creator *)

Section Creator.

Context `{Codec} (location : Location) (net : Network).

(** C1: for every name (a well-formed string, as every string decoded
    from a URL is; the empty and the blank ones included),
    [newDocumentId] sends exactly one request, a POST; its path after
    the coordinator base is [/new] alone if and only if the trimmed name
    is empty, and otherwise [/new/] followed by one more segment,
    [encodeURIComponent] of the name, applied once. *)
Theorem newDocumentId_request_path (name : jsstring) :
  well_formed name = true ->
  exists path,
    requests (run net (newDocumentId location (Some name)) []).2
    = [{| url := protocol location ++ lit "//" ++ COORDINATOR_URL location ++ path;
          method := POST |}]
    /\ (path = lit "/new" <-> trim name = [])
    /\ (trim name <> [] ->
        exists e,
          encodeURIComponent name = Some e /\ segment e = true
          /\ path = lit "/new/" ++ e).
Proof.
  intros Hwf. destruct (decide (trim name = [])) as [E | E].
  - exists (lit "/new"). split; [| split].
    + rewrite (newDocumentId_blank location net (Some name) [] E).
      apply requests_settled.
    + tauto.
    + contradiction.
  - destruct (encodeURIComponent_total name Hwf) as [e He].
    exists (lit "/new/" ++ e). split; [| split].
    + rewrite (newDocumentId_named location net (Some name) [] e E He).
      apply requests_settled.
    + split; [discriminate | contradiction].
    + intros _. exists e. split; [exact He | split; [| reflexivity]].
      apply (encodeURIComponent_segment name e); [| exact He].
      intros ->. apply E. reflexivity.
Qed.

(** C10: when the trimmed name is not empty, the segment after [/new/]
    is [encodeURIComponent] of the name as it was given, leading and
    trailing white space included. *)
Theorem newDocumentId_encodes_untrimmed (name e : jsstring) :
  trim name <> [] ->
  encodeURIComponent name = Some e ->
  requests (run net (newDocumentId location (Some name)) []).2
  = [{| url := protocol location ++ lit "//" ++ COORDINATOR_URL location
               ++ lit "/new/" ++ e;
        method := POST |}].
Proof.
  intros E He.
  rewrite (newDocumentId_named location net (Some name) [] e E He).
  apply requests_settled.
Qed.

(** C7, as the code has it: every request of [newDocumentId] goes to
    [location.protocol], two slashes and the coordinator host, whatever
    the hostname is. *)
Theorem request_scheme_is_page_protocol (arg : option jsstring) (req : Request) :
  In req (requests (run net (newDocumentId location arg) []).2) ->
  exists path,
    url req = protocol location ++ lit "//" ++ COORDINATOR_URL location ++ path.
Proof.
  destruct (newDocumentId_cases location net arg) as [E | [path E]]; rewrite E.
  - intros [].
  - rewrite requests_settled. intros [<- | []]. exists path. reflexivity.
Qed.

(** C4, as the code has it: [newDocumentId] makes one request, a POST,
    or none when encoding the name throws; it fails when the request is
    rejected, when the body cannot be read and when the codec cannot
    parse the body, and returns the parsed identifier otherwise, whatever
    the status of the response; a failure leaves the loader of [/] and
    the loader of [/named/:name], whatever [params] holds the name, as it
    left [newDocumentId], after the same events. *)
Theorem creation_failure_propagates (arg : option jsstring) :
  let out := run net (newDocumentId location arg) [] in
  (out = (Thrown URIError, [])
   \/ exists req,
        out.2 = [Fetched req] /\ method req = POST
        /\ out.1 = match net 0%nat req with
                   | None => Thrown NetworkError
                   | Some resp =>
                       match text resp with
                       | None => Thrown BodyError
                       | Some body =>
                           match journalIdFromString body with
                           | None => Thrown (CodecError body)
                           | Some id => Returned id
                           end
                       end
                   end)
  /\ forall e, out.1 = Thrown e ->
       (arg = None ->
        run net (navigate location (lit "/")) [] = (Thrown e, out.2))
       /\ exists f,
            loader_at (router location) (lit "/named/:name") = Some f
            /\ forall params : Params,
                 params !! lit "name" = arg ->
                 run net (f params) [] = (Thrown e, out.2).
Proof.
  intros out. split.
  - destruct (newDocumentId_cases location net arg) as [E | [path E]];
      [left; exact E |].
    right. eexists. subst out. rewrite E. unfold settled. simpl.
    split; [reflexivity | split; reflexivity].
  - intros e He. split.
    + intros ->. rewrite run_navigate_root. fold out. rewrite He. reflexivity.
    + eexists. split; [reflexivity |].
      intros params E. cbv beta. rewrite E, run_redirect. fold out.
      rewrite He. reflexivity.
Qed.

End Creator.

Lemma newDocumentId_request_path_witness :
  let name := lit "Trip Planner" in
  well_formed name = true
  /\ exists path,
       requests (run (sample_net "abc123")
                   (newDocumentId sample_location (Some name)) []).2
       = [{| url := lit "https:" ++ lit "//"
                    ++ lit "sqlsync.orbitinghail.workers.dev" ++ path;
             method := POST |}]
       /\ (path = lit "/new" <-> trim name = [])
       /\ (trim name <> [] ->
           exists e,
             encodeURIComponent name = Some e /\ segment e = true
             /\ path = lit "/new/" ++ e).
Proof.
  intros name. split; [reflexivity |].
  exact (newDocumentId_request_path sample_location (sample_net "abc123")
           name eq_refl).
Defined.

Lemma newDocumentId_encodes_untrimmed_witness :
  trim (lit " plan") <> []
  /\ encodeURIComponent (lit " plan") = Some (lit "%20plan")
  /\ requests (run (sample_net "abc123")
                 (newDocumentId sample_location (Some (lit " plan"))) []).2
     = [{| url := lit "https://sqlsync.orbitinghail.workers.dev/new/%20plan";
           method := POST |}].
Proof.
  assert (N : trim (lit " plan") <> []) by discriminate.
  split; [exact N | split; [reflexivity |]].
  exact (newDocumentId_encodes_untrimmed sample_location (sample_net "abc123")
           (lit " plan") (lit "%20plan") N eq_refl).
Defined.

Lemma request_scheme_is_page_protocol_witness :
  let location := {| hostname := lit "localhost"; protocol := lit "https:" |} in
  let req := {| url := lit "https://localhost:8787/new"; method := POST |} in
  In req (requests (run (sample_net "abc123") (newDocumentId location None) []).2)
  /\ exists path, url req = lit "https:" ++ lit "//" ++ lit "localhost:8787" ++ path.
Proof.
  intros location req.
  assert (I : In req (requests (run (sample_net "abc123")
                                  (newDocumentId location None) []).2))
    by (left; reflexivity).
  split; [exact I |].
  exact (request_scheme_is_page_protocol location (sample_net "abc123") None req I).
Defined.

Lemma creation_failure_propagates_witness :
  let offline : Network := fun _ _ => None in
  let params : Params := {[ lit "name" := lit "a/b" ]} in
  let req := {| url := lit "https://sqlsync.orbitinghail.workers.dev/new/a%2Fb";
                method := POST |} in
  run offline (newDocumentId sample_location (Some (lit "a/b"))) []
  = (Thrown NetworkError, [Fetched req])
  /\ exists f,
       loader_at (router sample_location) (lit "/named/:name") = Some f
       /\ run offline (f params) [] = (Thrown NetworkError, [Fetched req]).
Proof.
  intros offline params req. split; [reflexivity |].
  destruct (proj2 (proj2 (creation_failure_propagates sample_location offline
                            (Some (lit "a/b")))
                     NetworkError eq_refl)) as (f & Hf & Hrun).
  exists f. split; [exact Hf |].
  exact (Hrun params (lookup_singleton_eq (M := gmap jsstring) _ _)).
Defined.

(** Counterexample to C7 as stated: a page served over plain http from
    a hostname that is not local posts to [http://], not [https://]. *)
Lemma request_scheme_not_from_locality :
  ~ (forall (C : Codec) (location : Location) (net : Network) (req : Request),
       In req (requests (run net (newDocumentId location None) []).2) ->
       exists rest,
         url req = (if isLocalhost location then lit "http" else lit "https")
                   ++ lit "://" ++ rest).
Proof.
  intros claim.
  destruct (claim sample_codec
              {| hostname := lit "app.example.com"; protocol := lit "http:" |}
              (sample_net "abc123")
              {| url := lit "http://sqlsync.orbitinghail.workers.dev/new";
                 method := POST |}
              (or_introl eq_refl)) as [rest E].
  discriminate E.
Qed.

(** Counterexample to C4 as stated: a response with status 500 whose
    body the codec parses makes [newDocumentId] return. *)
Lemma non_success_status_returns :
  ~ (forall (C : Codec) (location : Location) (net : Network)
            (arg : option jsstring) (req : Request) (resp : Response),
       In req (requests (run net (newDocumentId location arg) []).2) ->
       net 0%nat req = Some resp ->
       ok resp = false ->
       exists e, (run net (newDocumentId location arg) []).1 = Thrown e).
Proof.
  intros claim.
  destruct (claim sample_codec sample_location (replying 500 "abc123") None
              {| url := lit "https://sqlsync.orbitinghail.workers.dev/new";
                 method := POST |}
              {| status := 500; text := Some (lit "abc123") |}
              (or_introl eq_refl) eq_refl eq_refl) as [e E].
  discriminate E.
Qed.

(** On a string with an unpaired surrogate [encodeURIComponent] throws
    before any request is made. *)
Example unpaired_surrogate_throws :
  run (sample_net "abc123") (newDocumentId sample_location (Some [55357; 97])) []
  = (Thrown URIError, []).
Proof. reflexivity. Qed.

Example status_500_redirects :
  run (replying 500 "abc123") (navigate sample_location (lit "/")) []
  = (Returned (Redirected (Redirect (lit "/abc123"))),
     [Fetched {| url := lit "https://sqlsync.orbitinghail.workers.dev/new";
                 method := POST |}]).
Proof. reflexivity. Qed.

Example offline_fails :
  run (fun _ _ => None) (navigate sample_location (lit "/")) []
  = (Thrown NetworkError,
     [Fetched {| url := lit "https://sqlsync.orbitinghail.workers.dev/new";
                 method := POST |}]).
Proof. reflexivity. Qed.

Example unparsable_body_fails :
  run (replying 200 "Internal Server Error")
      (navigate sample_location (lit "/named/x")) []
  = (Thrown (CodecError (lit "Internal Server Error")),
     [Fetched {| url := lit "https://sqlsync.orbitinghail.workers.dev/new/x";
                 method := POST |}]).
Proof. reflexivity. Qed.

(** ** Navigation *)

(** C2: navigating to [/] runs the creator with no name: exactly one
    event, the POST to [/new], and the result is the redirect to
    [/] followed by the string form of the identifier received (the
    creator's failure otherwise); the loader of [/named/:name] runs the
    creator with the [name] of the [params] it is given, whatever they
    are, and ends in the same way. *)
Theorem loaders_create_then_redirect `{Codec} (location : Location)
    (net : Network) (params : Params) :
  let created := run net (newDocumentId location None) [] in
  let named := run net (newDocumentId location (params !! lit "name")) [] in
  run net (navigate location (lit "/")) [] = (redirected created.1, created.2)
  /\ created.2
     = [Fetched {| url := protocol location ++ lit "//"
                          ++ COORDINATOR_URL location ++ lit "/new";
                   method := POST |}]
  /\ exists f,
       loader_at (router location) (lit "/named/:name") = Some f
       /\ run net (f params) [] = (redirect_to named.1, named.2).
Proof.
  intros created named. split; [| split].
  - apply run_navigate_root.
  - unfold created.
    rewrite (newDocumentId_blank location net None []) by reflexivity.
    reflexivity.
  - eexists. split; [reflexivity |]. apply run_redirect.
Qed.

Lemma loaders_create_then_redirect_witness :
  let params : Params := {[ lit "name" := lit "a/b" ]} in
  run (sample_net "abc123") (navigate sample_location (lit "/")) []
  = (Returned (Redirected (Redirect (lit "/abc123"))),
     [Fetched {| url := lit "https://sqlsync.orbitinghail.workers.dev/new";
                 method := POST |}])
  /\ exists f,
       loader_at (router sample_location) (lit "/named/:name") = Some f
       /\ run (sample_net "abc123") (f params) []
          = (Returned (Redirect (lit "/abc123")),
             [Fetched {| url := lit "https://sqlsync.orbitinghail.workers.dev/new/a%2Fb";
                         method := POST |}]).
Proof.
  intros params.
  destruct (loaders_create_then_redirect sample_location (sample_net "abc123")
              params) as (E1 & _ & f & Hf & E2).
  split; [exact E1 |]. exists f. split; [exact Hf | exact E2].
Defined.

(** C6: navigating to [/{s}], [s] one path segment that the codec
    parses to [id], renders the Document View on [id] and performs no
    effect: no request, no log entry. *)
Theorem navigate_docId_renders `{Codec} (location : Location) (net : Network)
    (s : jsstring) (id : JournalId) :
  segment s = true ->
  journalIdFromString s = Some id ->
  run net (navigate location (lit "/" ++ s)) [] = (Returned (Rendered (App id)), []).
Proof.
  intros Hs Hid. rewrite (run_navigate_docId location net s [] Hs), Hid.
  reflexivity.
Qed.

Lemma navigate_docId_renders_witness :
  segment (lit "abc123") = true
  /\ journalIdFromString (lit "abc123") = Some (lit "abc123")
  /\ run (sample_net "unused") (navigate sample_location (lit "/abc123")) []
     = (Returned (Rendered (App (lit "abc123"))), []).
Proof.
  split; [reflexivity | split; [reflexivity |]].
  exact (navigate_docId_renders sample_location (sample_net "unused")
           (lit "abc123") (lit "abc123") eq_refl eq_refl).
Defined.

(** Where the redirect leads: if the string form of the identifier is
    one path segment that parses back to the identifier, following the
    redirect renders the Document View on the identifier created. *)
Lemma redirect_then_render `{Codec} (location : Location) (net : Network)
    (id : JournalId) (tr : list Event) :
  segment (journalIdToString id) = true ->
  journalIdFromString (journalIdToString id) = Some id ->
  run net (navigate location (lit "/" ++ journalIdToString id)) tr
  = (Returned (Rendered (App id)), tr).
Proof.
  intros Hs Hid.
  rewrite (run_navigate_docId location net _ tr Hs), Hid. reflexivity.
Qed.

(** ** The Document View *)

Section View.

Context `{Codec} (net : Network).

(** C5: when [docId] is missing from the params or is the empty string,
    [DocRoute] returns the red [<pre>] element labelled ERROR and logs
    the condition once with [console.error]; nothing is thrown and no
    request is made. *)
Theorem DocRoute_without_docId (params : Params) :
  params !! lit "docId" = None \/ params !! lit "docId" = Some [] ->
  run net (DocRoute params) []
  = (Returned (Pre (lit "red") (lit "ERROR: doc id not found in params")),
     [Logged (lit "doc id not found in params")]).
Proof.
  intros [E | E]; unfold DocRoute; rewrite E; reflexivity.
Qed.

(** C9: when [docId] is a non-empty string, [DocRoute] hands it as it is
    to [journalIdFromString]: it renders the application on the parsed
    identifier, or the codec's exception leaves [DocRoute]; it logs
    nothing and never returns the inline error element. *)
Theorem DocRoute_with_docId (params : Params) (s : jsstring) :
  params !! lit "docId" = Some s ->
  s <> [] ->
  run net (DocRoute params) []
  = (match journalIdFromString s with
     | Some id => Returned (App id)
     | None => Thrown (CodecError s)
     end, [])
  /\ forall color children,
       (run net (DocRoute params) []).1 <> Returned (Pre color children).
Proof.
  intros E Hs. unfold DocRoute. rewrite E.
  destruct s as [| c t]; [contradiction |]. cbn [truthy].
  destruct (journalIdFromString (c :: t)); simpl; split; congruence.
Qed.

End View.

Lemma DocRoute_without_docId_witness :
  let params : Params := {[ lit "docId" := [] ]} in
  params !! lit "docId" = Some []
  /\ run (sample_net "unused") (DocRoute params) []
     = (Returned (Pre (lit "red") (lit "ERROR: doc id not found in params")),
        [Logged (lit "doc id not found in params")]).
Proof.
  intros params.
  assert (E : params !! lit "docId" = Some []) by apply lookup_singleton_eq.
  split; [exact E |].
  exact (DocRoute_without_docId (sample_net "unused") params (or_intror E)).
Defined.

Lemma DocRoute_with_docId_witness :
  let params : Params := {[ lit "docId" := lit "not an id" ]} in
  params !! lit "docId" = Some (lit "not an id")
  /\ lit "not an id" <> []
  /\ run (sample_net "unused") (DocRoute params) []
     = (Thrown (CodecError (lit "not an id")), []).
Proof.
  intros params.
  assert (E : params !! lit "docId" = Some (lit "not an id"))
    by apply lookup_singleton_eq.
  assert (N : lit "not an id" <> []) by discriminate.
  split; [exact E | split; [exact N |]].
  exact (proj1 (DocRoute_with_docId (sample_net "unused") params
                  (lit "not an id") E N)).
Defined.

(** * Further properties *)

(** ** White space *)

Lemma trimStart_nil (s : jsstring) : trimStart s = [] <-> blank s = true.
Proof.
  induction s as [| c s IH]; simpl; [tauto |].
  destruct (white_space c); simpl; [exact IH |].
  split; discriminate.
Qed.

Lemma trimStart_head (s : jsstring) (c : N) (t : jsstring) :
  trimStart s = c :: t -> white_space c = false.
Proof.
  induction s as [| a s IH]; simpl; [discriminate |].
  destruct (white_space a) eqn:E; [exact IH |].
  intros [= <- <-]. exact E.
Qed.

Lemma blank_rev (s : jsstring) : blank (rev s) = blank s.
Proof.
  unfold blank. induction s as [| c s IH]; simpl; [reflexivity |].
  rewrite forallb_app, IH. simpl. rewrite andb_true_r. apply andb_comm.
Qed.

Lemma trim_nil (s : jsstring) : trim s = [] <-> blank s = true.
Proof.
  unfold trim, trimEnd. split.
  - intros E. apply (f_equal (@rev N)) in E. rewrite rev_involutive in E.
    simpl in E. apply trimStart_nil in E. rewrite blank_rev in E.
    destruct (trimStart s) as [| c t] eqn:T.
    + apply trimStart_nil, T.
    + apply trimStart_head in T. simpl in E. rewrite T in E. discriminate.
  - intros B. apply trimStart_nil in B. rewrite B. reflexivity.
Qed.

(** ** Where [encodeURIComponent] is defined *)

Lemma encodeURIComponent_well_formed_aux (n : nat) (s : jsstring) :
  (length s <= n)%nat ->
  forallb code_unit s = true ->
  is_Some (encodeURIComponent s) -> well_formed s = true.
Proof.
  revert s. induction n as [| n IH]; intros s Hlen Hcu [e He].
  - destruct s; [reflexivity | simpl in Hlen; lia].
  - destruct s as [| c rest]; [reflexivity |].
    simpl in Hlen, Hcu, He |- *.
    apply andb_prop in Hcu as [Hc Hcu]. rewrite Hc. simpl.
    destruct (uri_unescaped c) eqn:Hu.
    + destruct (surrogate_not_ascii c (uri_unescaped_ascii c Hu)) as [-> ->].
      destruct (encodeURIComponent rest) eqn:E; [| discriminate].
      apply IH; [lia | assumption | eauto].
    + destruct (low_surrogate c); [discriminate |].
      destruct (high_surrogate c).
      * destruct rest as [| d rest']; [discriminate |].
        simpl in Hcu. apply andb_prop in Hcu as [_ Hcu].
        destruct (low_surrogate d); [| discriminate]. simpl.
        destruct (encodeURIComponent rest') eqn:E; [| discriminate].
        apply IH; [simpl in Hlen; lia | assumption | eauto].
      * destruct (encodeURIComponent rest) eqn:E; [| discriminate].
        apply IH; [lia | assumption | eauto].
Qed.

Lemma encodeURIComponent_defined (s : jsstring) :
  forallb code_unit s = true ->
  is_Some (encodeURIComponent s) <-> well_formed s = true.
Proof.
  intros Hcu. split.
  - apply (encodeURIComponent_well_formed_aux (length s)); [lia | exact Hcu].
  - apply encodeURIComponent_total.
Qed.

(** ** Decoding what [encodeURIComponent] produced *)

Example decode_plan : decodeURIComponent (lit "%20plan%2fA") = Some (lit " plan/A").
Proof. reflexivity. Qed.
Example decode_unicode :
  decodeURIComponent (lit "%C3%A9%E2%82%AC%F0%9F%98%80") = Some [233; 8364; 55357; 56832].
Proof. reflexivity. Qed.
Example decode_overlong : decodeURIComponent (lit "%C0%AF") = None.
Proof. reflexivity. Qed.
Example decode_surrogate : decodeURIComponent (lit "%ED%A0%80") = None.
Proof. reflexivity. Qed.
Example decode_truncated : decodeURIComponent (lit "%E2%82") = None.
Proof. reflexivity. Qed.
Example decode_bare_percent : decodeURIComponent (lit "100%") = None.
Proof. reflexivity. Qed.

Lemma all_from_spec (f : N -> bool) (n : nat) (a x : N) :
  all_from f a n = true -> a <= x -> x < a + N.of_nat n -> f x = true.
Proof.
  revert a. induction n as [| n IH]; intros a Hall Hlo Hhi; simpl in *.
  - lia.
  - apply andb_prop in Hall as [Ha Hall].
    destruct (N.eq_dec x a) as [-> | Hne]; [exact Ha |].
    apply (IH (N.succ a)); [exact Hall | lia | lia].
Qed.

Lemma lor_128 x : x < 64 -> N.lor 128 x = 128 + x.
Proof.
  intros Hx. apply N.eqb_eq.
  apply (all_from_spec (fun x => N.lor 128 x =? 128 + x) 64 0 x);
    [vm_compute; reflexivity | lia | lia].
Qed.

Lemma lor_192 x : x < 32 -> N.lor 192 x = 192 + x.
Proof.
  intros Hx. apply N.eqb_eq.
  apply (all_from_spec (fun x => N.lor 192 x =? 192 + x) 32 0 x);
    [vm_compute; reflexivity | lia | lia].
Qed.

Lemma lor_224 x : x < 16 -> N.lor 224 x = 224 + x.
Proof.
  intros Hx. apply N.eqb_eq.
  apply (all_from_spec (fun x => N.lor 224 x =? 224 + x) 16 0 x);
    [vm_compute; reflexivity | lia | lia].
Qed.

Lemma lor_240 x : x < 8 -> N.lor 240 x = 240 + x.
Proof.
  intros Hx. apply N.eqb_eq.
  apply (all_from_spec (fun x => N.lor 240 x =? 240 + x) 8 0 x);
    [vm_compute; reflexivity | lia | lia].
Qed.

Lemma land_63 x : N.land x 63 = x mod 64.
Proof. change 63 with (N.ones 6). rewrite N.land_ones. reflexivity. Qed.

Lemma shiftr_div x k : N.shiftr x k = x / 2 ^ k.
Proof. apply N.shiftr_div_pow2. Qed.

(** Division and remainder by constants, for [lia]. *)
Ltac divlia := zify; Z.to_euclidean_division_equations; lia.


Lemma utf8_octets (cp : N) :
  cp < 1114112 ->
  utf8 cp =
  if cp <? 128 then [cp]
  else if cp <? 2048 then [192 + cp / 64; 128 + cp mod 64]
  else if cp <? 65536 then
    [224 + cp / 64 / 64; 128 + (cp / 64) mod 64; 128 + cp mod 64]
  else
    [240 + cp / 64 / 64 / 64; 128 + (cp / 64 / 64) mod 64;
     128 + (cp / 64) mod 64; 128 + cp mod 64].
Proof.
  intros Hcp. unfold utf8. rewrite !land_63, !shiftr_div.
  change (2 ^ 6) with 64. change (2 ^ 12) with (64 * 64).
  change (2 ^ 18) with (64 * (64 * 64)).
  rewrite <- !N.Div0.div_div.
  destruct (cp <? 128); [reflexivity |].
  destruct (N.ltb_spec cp 2048).
  { rewrite lor_192, lor_128 by divlia. reflexivity. }
  destruct (N.ltb_spec cp 65536).
  { rewrite lor_224, !lor_128 by divlia. reflexivity. }
  rewrite lor_240, !lor_128 by divlia. reflexivity.
Qed.

Lemma hex_value_digit (d : N) : d < 16 -> hex_value (hex_digit d) = Some d.
Proof.
  intros Hd.
  pose (f := fun d => match hex_value (hex_digit d) with
                      | Some v => v =? d
                      | None => false
                      end).
  assert (E : f d = true)
    by (apply (all_from_spec f 16 0 d); [vm_compute; reflexivity | lia | lia]).
  unfold f in E. destruct (hex_value (hex_digit d)); [| discriminate].
  apply N.eqb_eq in E. congruence.
Qed.

Lemma read_octet_percent (b : N) (r : jsstring) :
  b < 256 -> read_octet (percent b ++ r) = Some (b, r).
Proof.
  intros Hb. unfold percent, read_octet. cbn [app]. 
  change (37 =? 37) with true. cbn match.
  rewrite !hex_value_digit by divlia. cbn.
  f_equal. f_equal. divlia.
Qed.

Lemma read_continuation_percent (x : N) (r : jsstring) :
  x < 64 -> read_continuation (percent (128 + x) ++ r) = Some (x, r).
Proof.
  intros Hx. unfold read_continuation. rewrite read_octet_percent by lia.
  cbn. destruct (N.leb_spec 128 (128 + x)); [| lia].
  destruct (N.leb_spec (128 + x) 191); [| lia].
  cbn. f_equal. f_equal. lia.
Qed.

Ltac decide_ltb :=
  repeat match goal with
         | |- context [N.ltb ?a ?b] =>
             destruct (N.ltb_spec a b); try (exfalso; divlia)
         end.

Ltac step_continuation :=
  rewrite read_continuation_percent by divlia;
  cbn [mbind option_bind]; cbv beta iota zeta.

Lemma read_code_point_utf8 (cp : N) (r : jsstring) :
  scalar cp = true ->
  exists b tail,
    escape cp = percent b ++ tail /\ b < 256
    /\ read_code_point b (tail ++ r) = Some (cp, r).
Proof.
  unfold scalar. intros Hs. apply andb_prop in Hs as [Hlt Hns].
  apply N.ltb_lt in Hlt. apply negb_true_iff in Hns.
  unfold escape. rewrite (utf8_octets cp Hlt).
  destruct (N.ltb_spec cp 128) as [H1 | H1].
  { exists cp, []. cbn [map concat]. rewrite !app_nil_r.
    split; [reflexivity | split; [lia |]].
    unfold read_code_point. cbn [app]. decide_ltb. reflexivity. }
  destruct (N.ltb_spec cp 2048) as [H2 | H2].
  { eexists _, _. cbn [map concat]. split; [reflexivity | split; [divlia |]].
    rewrite app_nil_r. unfold read_code_point. decide_ltb.
    step_continuation. decide_ltb. f_equal. f_equal. divlia. }
  destruct (N.ltb_spec cp 65536) as [H3 | H3].
  { eexists _, _. cbn [map concat]. split; [reflexivity | split; [divlia |]].
    rewrite app_nil_r, <- app_assoc. unfold read_code_point. decide_ltb.
    do 2 step_continuation.
    replace ((224 + cp / 64 / 64 - 224) * 4096 + (cp / 64) mod 64 * 64 + cp mod 64)
      with cp by divlia.
    rewrite Hns. decide_ltb. reflexivity. }
  eexists _, _. cbn [map concat]. split; [reflexivity | split; [divlia |]].
  rewrite app_nil_r, <- !app_assoc. unfold read_code_point. decide_ltb.
  do 3 step_continuation.
  replace ((240 + cp / 64 / 64 / 64 - 240) * 262144
           + (cp / 64 / 64) mod 64 * 4096 + (cp / 64) mod 64 * 64 + cp mod 64)
    with cp by divlia.
  decide_ltb. reflexivity.
Qed.

Lemma decode_escape (fuel : nat) (cp : N) (r : jsstring) :
  scalar cp = true ->
  decode (S fuel) (escape cp ++ r) = (utf16 cp ++.) <$> decode fuel r.
Proof.
  intros Hs. destruct (read_code_point_utf8 cp r Hs) as (b & tail & E & Hb & R).
  rewrite E, <- app_assoc.
  assert (O := read_octet_percent b (tail ++ r) Hb).
  unfold percent in *. cbn [app] in *. cbn [decode].
  change (37 =? 37) with true. cbv iota. rewrite O. cbn [mbind option_bind].
  rewrite R. reflexivity.
Qed.

Lemma escape_length (cp : N) : (1 <= length (escape cp))%nat.
Proof.
  pose proof (escape_not_nil cp). destruct (escape cp); [contradiction | simpl; lia].
Qed.

Lemma bmp_scalar (c : N) :
  code_unit c = true -> low_surrogate c = false -> high_surrogate c = false ->
  scalar c = true /\ utf16 c = [c].
Proof.
  unfold code_unit, low_surrogate, high_surrogate, scalar, utf16.
  intros Hc Hl Hh. rewrite Hc. split; [| reflexivity].
  do 2 unbool. lia.
Qed.

Lemma pair_scalar (hi lo : N) :
  high_surrogate hi = true -> low_surrogate lo = true ->
  scalar (pair_code_point hi lo) = true
  /\ utf16 (pair_code_point hi lo) = [hi; lo].
Proof.
  unfold low_surrogate, high_surrogate, scalar, utf16, pair_code_point.
  intros Hh Hl. do 2 unbool. split; [lia |].
  destruct (N.ltb_spec ((hi - 55296) * 1024 + (lo - 56320) + 65536) 65536);
    [lia |].
  f_equal; [| f_equal]; divlia.
Qed.

Lemma decode_encode_aux (n : nat) (s e : jsstring) (fuel : nat) :
  (length s <= n)%nat ->
  well_formed s = true ->
  encodeURIComponent s = Some e ->
  (length e <= fuel)%nat ->
  decode fuel e = Some s.
Proof.
  revert s e fuel. induction n as [| n IH]; intros s e fuel Hlen Hwf He Hf.
  - destruct s; [| simpl in Hlen; lia]. injection He as <-.
    destruct fuel; reflexivity.
  - destruct s as [| c rest].
    { injection He as <-. destruct fuel; reflexivity. }
    simpl in Hlen, Hwf, He.
    destruct (code_unit c) eqn:Hc; [| discriminate]. simpl in Hwf.
    destruct (uri_unescaped c) eqn:Hu.
    + destruct (surrogate_not_ascii c (uri_unescaped_ascii c Hu)) as [Hl Hh].
      rewrite Hl, Hh in Hwf.
      destruct (encodeURIComponent rest) as [e' |] eqn:He'; [| discriminate].
      injection He as <-. destruct fuel as [| fuel]; [simpl in Hf; lia |].
      cbn [decode].
      assert ((c =? 37) = false) as ->.
      { revert Hu. unfold uri_unescaped, ascii_alpha, ascii_digit, uri_mark.
        unbool. lia. }
      rewrite (IH rest e' fuel) by (simpl in Hf; lia || assumption).
      reflexivity.
    + destruct (low_surrogate c) eqn:Hl; [discriminate |].
      destruct (high_surrogate c) eqn:Hh.
      * destruct rest as [| d rest']; [discriminate |].
        apply andb_prop in Hwf as [Hd Hwf]. rewrite Hd in He.
        destruct (encodeURIComponent rest') as [e' |] eqn:He'; [| discriminate].
        injection He as <-.
        destruct (pair_scalar c d Hh Hd) as [Hs Hu16].
        pose proof (escape_length (pair_code_point c d)).
        rewrite length_app in Hf.
        destruct fuel as [| fuel]; [lia |].
        rewrite (decode_escape fuel _ e' Hs), Hu16.
        rewrite (IH rest' e' fuel) by (simpl in Hlen; lia || assumption).
        reflexivity.
      * destruct (encodeURIComponent rest) as [e' |] eqn:He'; [| discriminate].
        injection He as <-.
        destruct (bmp_scalar c Hc Hl Hh) as [Hs Hu16].
        pose proof (escape_length c).
        rewrite length_app in Hf.
        destruct fuel as [| fuel]; [lia |].
        rewrite (decode_escape fuel _ e' Hs), Hu16.
        rewrite (IH rest e' fuel) by (lia || assumption).
        reflexivity.
Qed.

(** One [decodeURIComponent] gives back what was encoded. *)
Lemma decode_encode (s e : jsstring) :
  well_formed s = true ->
  encodeURIComponent s = Some e ->
  decodeURIComponent e = Some s.
Proof.
  intros Hwf He. apply (decode_encode_aux (length s) s e); auto.
Qed.

(** Different strings have different encodings. *)
Lemma encodeURIComponent_inj (s t e : jsstring) :
  well_formed s = true -> well_formed t = true ->
  encodeURIComponent s = Some e -> encodeURIComponent t = Some e ->
  s = t.
Proof.
  intros Hs Ht Es Et.
  pose proof (decode_encode s e Hs Es) as Ds.
  pose proof (decode_encode t e Ht Et) as Dt.
  congruence.
Qed.

Lemma hex_digit_safe (d : N) : d < 16 -> uri_safe (hex_digit d) = true.
Proof.
  intros Hd.
  apply (all_from_spec (fun d => uri_safe (hex_digit d)) 16 0 d);
    [vm_compute; reflexivity | lia | lia].
Qed.

Lemma percent_safe (b : N) : b < 256 -> forallb uri_safe (percent b) = true.
Proof.
  intros Hb. unfold percent. cbn [forallb].
  rewrite !hex_digit_safe by divlia. reflexivity.
Qed.

Lemma escape_safe (cp : N) : cp < 1114112 -> forallb uri_safe (escape cp) = true.
Proof.
  intros Hcp. unfold escape. rewrite (utf8_octets cp Hcp).
  destruct (N.ltb_spec cp 128); [| destruct (N.ltb_spec cp 2048);
    [| destruct (N.ltb_spec cp 65536)]];
    cbn [map concat]; rewrite ?forallb_app, ?percent_safe by divlia;
    reflexivity.
Qed.

Lemma encodeURIComponent_safe_aux (n : nat) (s e : jsstring) :
  (length s <= n)%nat ->
  forallb code_unit s = true ->
  encodeURIComponent s = Some e ->
  forallb uri_safe e = true.
Proof.
  revert s e. induction n as [| n IH]; intros s e Hlen Hcu He.
  - destruct s; [| simpl in Hlen; lia]. injection He as <-. reflexivity.
  - destruct s as [| c rest]; [injection He as <-; reflexivity |].
    simpl in Hlen, Hcu, He. apply andb_prop in Hcu as [Hc Hcu].
    destruct (uri_unescaped c) eqn:Hu.
    + destruct (encodeURIComponent rest) as [e' |] eqn:He'; [| discriminate].
      injection He as <-. cbn [forallb]. unfold uri_safe at 1. rewrite Hu.
      apply (IH rest e'); [lia | assumption | assumption].
    + destruct (low_surrogate c) eqn:Hl; [discriminate |].
      destruct (high_surrogate c) eqn:Hh.
      * destruct rest as [| d rest']; [discriminate |].
        simpl in Hcu. apply andb_prop in Hcu as [_ Hcu].
        destruct (low_surrogate d) eqn:Hd; [| discriminate].
        destruct (encodeURIComponent rest') as [e' |] eqn:He'; [| discriminate].
        injection He as <-. rewrite forallb_app.
        destruct (pair_scalar c d Hh Hd) as [Hs _].
        unfold scalar in Hs. apply andb_prop in Hs as [Hs _].
        apply N.ltb_lt in Hs. rewrite (escape_safe _ Hs).
        apply (IH rest' e'); [simpl in Hlen; lia | assumption | assumption].
      * destruct (encodeURIComponent rest) as [e' |] eqn:He'; [| discriminate].
        injection He as <-. rewrite forallb_app.
        unfold code_unit in Hc. apply N.ltb_lt in Hc.
        rewrite (escape_safe c) by lia.
        apply (IH rest e'); [lia | assumption | assumption].
Qed.

Lemma encodeURIComponent_unreserved (s : jsstring) :
  forallb uri_unescaped s = true -> encodeURIComponent s = Some s.
Proof.
  induction s as [| c s IH]; [reflexivity |]. simpl.
  intros E. apply andb_prop in E as [-> Hs]. rewrite (IH Hs). reflexivity.
Qed.

Lemma unreserved_not_white_space (c : N) :
  uri_unescaped c = true -> white_space c = false.
Proof.
  unfold uri_unescaped, ascii_alpha, ascii_digit, uri_mark, white_space.
  intros Hu. do 2 unbool. lia.
Qed.

(** ** Every pathname *)

Lemma strip_empty_head (l : list jsstring) :
  strip_empty l = [] \/ exists c t rest, strip_empty l = (c :: t) :: rest.
Proof.
  induction l as [| [| c t] l IH]; simpl; eauto.
Qed.

(** The last segment of a pathname is not empty. *)
Lemma segments_last (pathname : jsstring) (segs : list jsstring) :
  segments pathname = Some segs ->
  segs = [] \/ exists front c t, segs = front ++ [c :: t].
Proof.
  unfold segments. destruct (split pathname) as [| [| ? ?] l]; try discriminate.
  intros [= <-].
  destruct (strip_empty_head (rev l)) as [-> | (c & t & rest & ->)].
  - left. reflexivity.
  - right. exists (rev rest), c, t. reflexivity.
Qed.

Lemma segments_one_inv (pathname s : jsstring) :
  segments pathname = Some [s] -> exists c t, s = c :: t.
Proof.
  intros E. destruct (segments_last _ _ E) as [? | (front & c & t & E')];
    [discriminate |].
  destruct front as [| ? [| ? ?]]; simplify_eq/=; eauto.
Qed.

Lemma segments_two_inv (pathname a b : jsstring) :
  segments pathname = Some [a; b] -> exists c t, b = c :: t.
Proof.
  intros E. destruct (segments_last _ _ E) as [? | (front & c & t & E')];
    [discriminate |].
  destruct front as [| ? [| ? [| ? ?]]]; simplify_eq/=; eauto.
Qed.

Section Classify.
Context `{Codec} (location : Location).

(** The route a pathname selects, by its segments. *)
Lemma matchRoutes_classify (pathname : jsstring) :
  matchRoutes (router location) pathname =
  match segments pathname with
  | Some [] => (fun r => (r, ∅)) <$> router location !! 0%nat
  | Some [s] => (fun r => (r, {[ lit "docId" := s ]})) <$> router location !! 2%nat
  | Some [a; b] =>
      if eqb (map upper (lit "named")) (map upper a)
      then (fun r => (r, {[ lit "name" := b ]})) <$> router location !! 1%nat
      else None
  | _ => None
  end.
Proof.
  unfold router. cbn [matchRoutes path]. unfold matchPath.
  change (segments (lit "/")) with (Some (@nil jsstring)).
  change (segments (lit "/named/:name")) with (Some [lit "named"; lit ":name"]).
  change (segments (lit "/:docId")) with (Some [lit ":docId"]).
  destruct (segments pathname) as [segs |] eqn:S; [| reflexivity].
  cbn [mbind option_bind].
  destruct segs as [| s [| b [| c segs]]].
  - reflexivity.
  - destruct (segments_one_inv _ _ S) as (c & t & ->).
    rewrite (match_segments_length [_; _] [_]) by (simpl; congruence).
    reflexivity.
  - destruct (segments_two_inv _ _ _ S) as (c & t & ->).
    rewrite (match_segments_length [_] [_; _]) by (simpl; congruence).
    cbn [match_segments]. change (lit "named") with (110 :: lit "amed").
    cbn match. change (110 =? colon) with false. cbn match.
    destruct (eqb _ _); reflexivity.
  - rewrite (match_segments_length [_; _] (_ :: _ :: _ :: _)) by (simpl; congruence).
    rewrite (match_segments_length [_] (_ :: _ :: _ :: _)) by (simpl; congruence).
    reflexivity.
Qed.

End Classify.

Lemma logs_app tr1 tr2 : logs (tr1 ++ tr2) = logs tr1 ++ logs tr2.
Proof. unfold logs. apply omap_app. Qed.

Section Sessions.
Context `{Codec} (location : Location) (net : Network).

(** What [newDocumentId] adds to the events: nothing, or one POST to
    [/new] of the coordinator or to one segment below it. *)
Lemma newDocumentId_events (arg : option jsstring) (tr : list Event) :
  (run net (newDocumentId location arg) tr).2 = tr
  \/ exists req,
       to_coordinator location req
       /\ (run net (newDocumentId location arg) tr).2 = tr ++ [Fetched req].
Proof.
  destruct (decide (trim (default [] arg) = [])) as [E | E].
  - right. eexists. rewrite (newDocumentId_blank location net arg tr E).
    split; [| reflexivity]. split; [reflexivity | left; reflexivity].
  - destruct (encodeURIComponent (default [] arg)) as [e |] eqn:He.
    + right. eexists.
      rewrite (newDocumentId_named location net arg tr e E He).
      split; [| reflexivity]. split; [reflexivity |].
      right. exists e. split; [| reflexivity].
      apply (encodeURIComponent_segment (default [] arg) e); [| exact He].
      intros E0. rewrite E0 in E. apply E. reflexivity.
    + left. rewrite (newDocumentId_throws location net arg tr E He). reflexivity.
Qed.

(** The four ways a navigation can go. *)
Lemma run_navigate_cases (pathname : jsstring) (tr : list Event) :
  (exists arg,
     run net (navigate location pathname) tr
     = (redirected (run net (newDocumentId location arg) tr).1,
        (run net (newDocumentId location arg) tr).2))
  \/ (exists c t,
        run net (navigate location pathname) tr
        = (match journalIdFromString (c :: t) with
           | Some id => Returned (Rendered (App id))
           | None => Thrown (CodecError (c :: t))
           end, tr))
  \/ run net (navigate location pathname) tr = (Returned NoMatch, tr).
Proof.
  unfold navigate. rewrite matchRoutes_classify.
  destruct (segments pathname) as [[| s [| b [| ? ?]]] |] eqn:S;
    try (right; right; reflexivity).
  - left. exists None. apply run_loader.
  - right. left. destruct (segments_one_inv _ _ S) as (c & t & ->).
    exists c, t. unfold router.
    cbn [lookup list_lookup fmap option_fmap option_map handler].
    unfold DocRoute. rewrite lookup_singleton_eq. cbn [truthy].
    destruct (journalIdFromString (c :: t)); reflexivity.
  - destruct (eqb _ _); [| right; right; reflexivity].
    left. exists (Some b). unfold router.
    cbn [lookup list_lookup fmap option_fmap option_map handler].
    rewrite lookup_singleton_eq. apply run_loader.
Qed.

Lemma navigate_events (pathname : jsstring) (tr : list Event) :
  (run net (navigate location pathname) tr).2 = tr
  \/ exists req,
       to_coordinator location req
       /\ (run net (navigate location pathname) tr).2 = tr ++ [Fetched req].
Proof.
  destruct (run_navigate_cases pathname tr) as [[arg E] | [(c & t & E) | E]];
    rewrite E; cbn [snd]; [apply newDocumentId_events | left | left];
    reflexivity.
Qed.

(** X8: through the route table [DocRoute] never takes its error
    branch: no navigation ends in the inline error element, and none
    writes to the console. *)
Theorem navigate_never_shows_inline_error (pathname : jsstring) (tr : list Event) :
  (forall color children,
     (run net (navigate location pathname) tr).1
     <> Returned (Rendered (Pre color children)))
  /\ logs (run net (navigate location pathname) tr).2 = logs tr.
Proof.
  split.
  - intros color children.
    destruct (run_navigate_cases pathname tr) as [[arg E] | [(c & t & E) | E]];
      rewrite E; cbn [fst].
    + destruct (run net (newDocumentId location arg) tr).1; discriminate.
    + destruct (journalIdFromString (c :: t)); discriminate.
    + discriminate.
  - destruct (navigate_events pathname tr) as [-> | (req & _ & ->)];
      [reflexivity |].
    rewrite logs_app. apply app_nil_r.
Qed.

Lemma visit_events (pg : Page) (pathname : jsstring) :
  events (visit location net pg pathname)
  = (run net (navigate location pathname) (events pg)).2.
Proof. unfold visit. destruct (run net _ _). reflexivity. Qed.

Lemma session_invariant_from (pathnames : list jsstring) (pg : Page) :
  let pg' := foldl (visit location net) pg pathnames in
  (length (requests (events pg'))
   <= length (requests (events pg)) + length pathnames)%nat
  /\ (Forall (to_coordinator location) (requests (events pg)) ->
      Forall (to_coordinator location) (requests (events pg')))
  /\ logs (events pg') = logs (events pg).
Proof.
  revert pg. induction pathnames as [| p ps IH]; intros pg; cbn [foldl].
  - cbn zeta. split; [lia | split; [tauto | reflexivity]].
  - specialize (IH (visit location net pg p)). cbn zeta in IH |- *.
    destruct IH as (L & F & G). rewrite visit_events in L, F, G.
    destruct (navigate_events p (events pg)) as [E | (req & Hreq & E)];
      rewrite E in L, F, G.
    + split; [simpl; lia | split; assumption].
    + rewrite requests_app, ?length_app, ?logs_app in *.
      cbn in L, G. rewrite app_nil_r in G.
      split; [simpl; lia | split; [| assumption]].
      intros F0. apply F. apply Forall_app. split; [assumption |].
      constructor; [exact Hreq | constructor].
Qed.

(** X9: after any sequence of navigations the page has made at most one
    request per navigation, each of them a POST to [/new] of the
    coordinator or to one segment below it, and [main.tsx] has written
    nothing to the console. *)
Theorem session_requests (pathnames : list jsstring) :
  let pg := browse location net pathnames in
  (length (requests (events pg)) <= length pathnames)%nat
  /\ Forall (to_coordinator location) (requests (events pg))
  /\ logs (events pg) = [].
Proof.
  destruct (session_invariant_from pathnames (mount location)) as (L & F & G).
  cbn zeta. unfold browse. split; [exact L | split; [| exact G]].
  apply F. constructor.
Qed.

End Sessions.

(** ** Names and requests *)

Lemma blank_false_trim (name : jsstring) : blank name = false -> trim name <> [].
Proof. intros B E. apply trim_nil in E. congruence. Qed.

Lemma single_request_inj (u1 u2 : jsstring) :
  [{| url := u1; method := POST |}] = [{| url := u2; method := POST |}] ->
  u1 = u2.
Proof. intros [= ->]. reflexivity. Qed.

Section Names.

Context `{Codec} (location : Location) (net : Network).

(** X1: a name of white space only is no name: [newDocumentId] does with
    it, after any events, what it does when called without argument. *)
Theorem blank_name_is_no_name (name : jsstring) (tr : list Event) :
  blank name = true ->
  run net (newDocumentId location (Some name)) tr
  = run net (newDocumentId location None) tr.
Proof.
  intros B.
  rewrite (newDocumentId_blank location net (Some name) tr)
    by (apply trim_nil, B).
  rewrite (newDocumentId_blank location net None tr) by reflexivity.
  reflexivity.
Qed.

(** X2: [newDocumentId] throws [URIError] exactly when the name has a
    character that is not white space and is not well-formed UTF-16;
    it has then made no request. *)
Theorem newDocumentId_URIError (name : jsstring) (tr : list Event) :
  forallb code_unit name = true ->
  ((run net (newDocumentId location (Some name)) tr).1 = Thrown URIError
   <-> blank name = false /\ well_formed name = false)
  /\ (blank name = false -> well_formed name = false ->
      (run net (newDocumentId location (Some name)) tr).2 = tr).
Proof.
  intros Hcu. destruct (blank name) eqn:B.
  - split; [| discriminate].
    rewrite (newDocumentId_blank location net (Some name) tr)
      by (apply trim_nil, B).
    unfold settled. simpl. split; [| intros [? _]; discriminate].
    destruct (net _ _) as [resp |]; [| discriminate].
    destruct (text resp) as [body |]; [| discriminate].
    destruct (journalIdFromString body); discriminate.
  - pose proof (blank_false_trim name B) as T.
    destruct (encodeURIComponent name) as [e |] eqn:He.
    + assert (W : well_formed name = true)
        by (apply encodeURIComponent_defined; eauto).
      rewrite W. split; [| discriminate].
      rewrite (newDocumentId_named location net (Some name) tr e T He).
      unfold settled. simpl. split; [| intros [_ ?]; discriminate].
      destruct (net _ _) as [resp |]; [| discriminate].
      destruct (text resp) as [body |]; [| discriminate].
      destruct (journalIdFromString body); discriminate.
    + rewrite (newDocumentId_throws location net (Some name) tr T He).
      split; [| reflexivity].
      split; [| reflexivity]. intros _. split; [reflexivity |].
      destruct (well_formed name) eqn:W; [| reflexivity].
      apply encodeURIComponent_total in W as [e E]. congruence.
Qed.

(** X3: the segment sent for a name decodes back to the name as it was
    given: one [decodeURIComponent] of it is the name, white space at
    its ends included. *)
Theorem name_segment_decodes (name : jsstring) :
  well_formed name = true ->
  blank name = false ->
  exists e,
    requests (run net (newDocumentId location (Some name)) []).2
    = [{| url := protocol location ++ lit "//" ++ COORDINATOR_URL location
                 ++ lit "/new/" ++ e;
          method := POST |}]
    /\ decodeURIComponent e = Some name.
Proof.
  intros Hwf B. destruct (encodeURIComponent_total name Hwf) as [e He].
  exists e. split; [| exact (decode_encode name e Hwf He)].
  rewrite (newDocumentId_named location net (Some name) [] e
             (blank_false_trim name B) He).
  apply requests_settled.
Qed.

(** X4: two names that are not blank and make [newDocumentId] send the
    same requests are the same name. *)
Theorem distinct_names_distinct_requests (name1 name2 : jsstring) :
  well_formed name1 = true -> well_formed name2 = true ->
  blank name1 = false -> blank name2 = false ->
  requests (run net (newDocumentId location (Some name1)) []).2
  = requests (run net (newDocumentId location (Some name2)) []).2 ->
  name1 = name2.
Proof.
  intros W1 W2 B1 B2.
  destruct (encodeURIComponent_total name1 W1) as [e1 E1].
  destruct (encodeURIComponent_total name2 W2) as [e2 E2].
  rewrite (newDocumentId_named location net (Some name1) [] e1
             (blank_false_trim name1 B1) E1).
  rewrite (newDocumentId_named location net (Some name2) [] e2
             (blank_false_trim name2 B2) E2).
  rewrite !requests_settled. intros E. apply single_request_inj in E.
  do 4 apply app_inv_head in E. subst e2.
  exact (encodeURIComponent_inj name1 name2 e1 W1 W2 E1 E2).
Qed.

(** X5: whatever the name, what follows [/new] in the URL of a request
    is nothing, or a slash and a non-empty run of characters that
    [encodeURIComponent] leaves alone and percent signs: the name cannot
    add a segment, a query or a fragment to the URL. *)
Theorem request_url_is_safe (arg : option jsstring) (req : Request) :
  forallb code_unit (default [] arg) = true ->
  In req (requests (run net (newDocumentId location arg) []).2) ->
  exists suffix,
    url req = protocol location ++ lit "//" ++ COORDINATOR_URL location
              ++ lit "/new" ++ suffix
    /\ (suffix = []
        \/ exists e, suffix = lit "/" ++ e /\ e <> []
                     /\ forallb uri_safe e = true).
Proof.
  intros Hcu.
  destruct (decide (trim (default [] arg) = [])) as [E | E].
  - rewrite (newDocumentId_blank location net arg [] E), requests_settled.
    intros [<- | []]. exists []. rewrite app_nil_r. eauto.
  - destruct (encodeURIComponent (default [] arg)) as [e |] eqn:He.
    + rewrite (newDocumentId_named location net arg [] e E He), requests_settled.
      intros [<- | []]. exists (lit "/" ++ e). split; [reflexivity |].
      right. exists e. split; [reflexivity | split].
      * apply (encodeURIComponent_not_nil (default [] arg)); [| exact He].
        intros E0. rewrite E0 in E. apply E. reflexivity.
      * exact (encodeURIComponent_safe_aux _ _ e (le_n _) Hcu He).
    + rewrite (newDocumentId_throws location net arg [] E He). intros [].
Qed.

(** X6: a non-empty name of letters, digits and the marks [-_.!~*'()]
    is sent as it is. *)
Theorem unreserved_name_sent_verbatim (name : jsstring) :
  name <> [] ->
  forallb uri_unescaped name = true ->
  requests (run net (newDocumentId location (Some name)) []).2
  = [{| url := protocol location ++ lit "//" ++ COORDINATOR_URL location
               ++ lit "/new/" ++ name;
        method := POST |}].
Proof.
  intros Hne Hu.
  assert (T : trim name <> []).
  { intros E. apply trim_nil in E. destruct name as [| c t]; [contradiction |].
    simpl in E, Hu. apply andb_prop in E as [E _]. apply andb_prop in Hu as [Hu _].
    rewrite (unreserved_not_white_space c Hu) in E. discriminate. }
  rewrite (newDocumentId_named location net (Some name) [] name T
             (encodeURIComponent_unreserved name Hu)).
  apply requests_settled.
Qed.

End Names.

(** ** Navigations *)

Section Navigations.

Context `{Codec} (location : Location) (net : Network).

Lemma visit_run (pg : Page) (pathname : jsstring) (res : Result Outcome)
    (tr : list Event) :
  run net (navigate location pathname) (events pg) = (res, tr) ->
  visit location net pg pathname
  = {| coordinatorUrl := coordinatorUrl pg; events := tr; shown := Some res |}.
Proof. unfold visit. intros ->. reflexivity. Qed.

(** X10: creating and opening compose: when the coordinator answers the
    request with a string the codec parses to [id], and the string form
    of [id] is one path segment that parses back to [id], navigating to
    [/] shows the redirect to that path, and following it shows the
    Document View on [id] after the one request of the creation. *)
Theorem create_then_open (resp : Response) (body : jsstring) (id : JournalId) :
  let req := {| url := protocol location ++ lit "//" ++ COORDINATOR_URL location
                       ++ lit "/new";
                method := POST |} in
  net 0%nat req = Some resp ->
  text resp = Some body ->
  journalIdFromString body = Some id ->
  segment (journalIdToString id) = true ->
  journalIdFromString (journalIdToString id) = Some id ->
  shown (browse location net [lit "/"])
  = Some (Returned (Redirected (Redirect (lit "/" ++ journalIdToString id))))
  /\ browse location net [lit "/"; lit "/" ++ journalIdToString id]
     = {| coordinatorUrl := COORDINATOR_URL_WS location;
          events := [Fetched req];
          shown := Some (Returned (Rendered (App id))) |}.
Proof.
  intros req Hnet Htext Hbody Hseg Hback.
  assert (E : run net (navigate location (lit "/")) []
              = (Returned (Redirected (Redirect (lit "/" ++ journalIdToString id))),
                 [Fetched req])).
  { rewrite run_navigate_root.
    rewrite (newDocumentId_blank location net None []) by reflexivity.
    unfold settled. change (length (requests [])) with 0%nat.
    fold req. rewrite Hnet, Htext, Hbody. reflexivity. }
  unfold browse. cbn [foldl].
  rewrite (visit_run (mount location) (lit "/") _ _ E).
  split; [reflexivity |].
  apply visit_run. cbn [events].
  rewrite (run_navigate_docId location net _ _ Hseg), Hback. reflexivity.
Qed.

(** X11: the route table selects no route exactly when the pathname is
    not empty and does not start with a slash, or has three segments or
    more, or has two of which the first is not "named" in either letter
    case. *)
Theorem matchRoutes_none (pathname : jsstring) :
  (segments pathname = None
   <-> exists c t, pathname = c :: t /\ c <> slash)
  /\ (matchRoutes (router location) pathname = None
      <-> match segments pathname with
          | None => True
          | Some [] | Some [_] => False
          | Some [a; _] => map upper a <> map upper (lit "named")
          | Some (_ :: _ :: _ :: _) => True
          end).
Proof.
  split.
  - unfold segments. destruct pathname as [| c t]; cbn [split].
    + split; [discriminate | intros (? & ? & ? & _); discriminate].
    + destruct (N.eqb_spec c slash) as [-> | Hc].
      * split; [discriminate | intros (? & ? & [= <- <-] & E); contradiction].
      * split; [eauto |]. intros _. destruct (split t); reflexivity.
  - rewrite matchRoutes_classify.
    destruct (segments pathname) as [[| s [| b [| ? ?]]] |];
      try (split; [trivial | reflexivity]).
    + split; [discriminate | contradiction].
    + split; [discriminate | contradiction].
    + unfold eqb. destruct (bool_decide_reflect
        (map upper (lit "named") = map upper s)) as [E | E].
      * split; [discriminate | congruence].
      * split; [congruence | reflexivity].
Qed.

(** X12: a blank name in the path is no name: navigating to
    [/named/{name}] with a name of white space only does what navigating
    to [/] does. *)
Theorem blank_named_is_root (name : jsstring) (tr : list Event) :
  segment name = true ->
  blank name = true ->
  run net (navigate location (lit "/named/" ++ name)) tr
  = run net (navigate location (lit "/")) tr.
Proof.
  intros Hs B.
  rewrite (run_navigate_named location net name tr Hs), run_navigate_root.
  rewrite (newDocumentId_blank location net (Some name) tr)
    by (apply trim_nil, B).
  rewrite (newDocumentId_blank location net None tr) by reflexivity.
  reflexivity.
Qed.

End Navigations.

(** ** Instances *)

Lemma blank_name_is_no_name_witness :
  blank (lit "  ") = true
  /\ run (sample_net "abc123") (newDocumentId sample_location (Some (lit "  "))) []
     = run (sample_net "abc123") (newDocumentId sample_location None) [].
Proof.
  split; [reflexivity |].
  exact (blank_name_is_no_name sample_location (sample_net "abc123")
           (lit "  ") [] eq_refl).
Defined.

Lemma newDocumentId_URIError_witness :
  let name := [55357; 97] in
  forallb code_unit name = true
  /\ ((run (sample_net "abc123") (newDocumentId sample_location (Some name)) []).1
      = Thrown URIError
      <-> blank name = false /\ well_formed name = false).
Proof.
  intros name. split; [reflexivity |].
  exact (proj1 (newDocumentId_URIError sample_location (sample_net "abc123")
                  name [] eq_refl)).
Defined.

Lemma name_segment_decodes_witness :
  let name := lit " plan" in
  well_formed name = true /\ blank name = false
  /\ exists e,
       requests (run (sample_net "abc123")
                   (newDocumentId sample_location (Some name)) []).2
       = [{| url := lit "https:" ++ lit "//"
                    ++ lit "sqlsync.orbitinghail.workers.dev" ++ lit "/new/" ++ e;
             method := POST |}]
       /\ decodeURIComponent e = Some name.
Proof.
  intros name. split; [reflexivity | split; [reflexivity |]].
  exact (name_segment_decodes sample_location (sample_net "abc123") name
           eq_refl eq_refl).
Defined.

Lemma distinct_names_distinct_requests_witness :
  let name := lit "Trip Planner" in
  well_formed name = true /\ blank name = false /\ name = name.
Proof.
  intros name. split; [reflexivity | split; [reflexivity |]].
  exact (distinct_names_distinct_requests sample_location (sample_net "abc123")
           name name eq_refl eq_refl eq_refl eq_refl eq_refl).
Defined.

Lemma request_url_is_safe_witness :
  let req := {| url := lit "https://sqlsync.orbitinghail.workers.dev/new/a%2Fb%3Fc";
                method := POST |} in
  forallb code_unit (lit "a/b?c") = true
  /\ In req (requests (run (sample_net "abc123")
                         (newDocumentId sample_location (Some (lit "a/b?c"))) []).2)
  /\ exists suffix,
       url req = lit "https:" ++ lit "//" ++ lit "sqlsync.orbitinghail.workers.dev"
                 ++ lit "/new" ++ suffix
       /\ (suffix = []
           \/ exists e, suffix = lit "/" ++ e /\ e <> []
                        /\ forallb uri_safe e = true).
Proof.
  intros req.
  assert (I : In req (requests (run (sample_net "abc123")
                (newDocumentId sample_location (Some (lit "a/b?c"))) []).2))
    by (left; reflexivity).
  split; [reflexivity | split; [exact I |]].
  exact (request_url_is_safe sample_location (sample_net "abc123")
           (Some (lit "a/b?c")) req eq_refl I).
Defined.

Lemma unreserved_name_sent_verbatim_witness :
  lit "plan-B_(v2)" <> []
  /\ forallb uri_unescaped (lit "plan-B_(v2)") = true
  /\ requests (run (sample_net "abc123")
                 (newDocumentId sample_location (Some (lit "plan-B_(v2)"))) []).2
     = [{| url := lit "https://sqlsync.orbitinghail.workers.dev/new/plan-B_(v2)";
           method := POST |}].
Proof.
  assert (N : lit "plan-B_(v2)" <> []) by discriminate.
  split; [exact N | split; [reflexivity |]].
  exact (unreserved_name_sent_verbatim sample_location (sample_net "abc123")
           (lit "plan-B_(v2)") N eq_refl).
Defined.

Lemma router_unambiguous_witness :
  let r := {| path := lit "/:docId"; handler := element DocRoute |} in
  router sample_location !! 2%nat = Some r
  /\ matchPath (path r) (lit "/abc123") = Some {[ lit "docId" := lit "abc123" ]}
  /\ 2%nat = 2%nat.
Proof.
  intros r.
  assert (R : router sample_location !! 2%nat = Some r) by reflexivity.
  assert (M : matchPath (path r) (lit "/abc123")
              = Some {[ lit "docId" := lit "abc123" ]}) by reflexivity.
  split; [exact R | split; [exact M |]].
  exact (router_unambiguous sample_location (lit "/abc123") 2 2 r r _ _ R R M M).
Defined.

Lemma create_then_open_witness :
  let req := {| url := lit "https://sqlsync.orbitinghail.workers.dev/new";
                method := POST |} in
  sample_net "abc123" 0%nat req = Some {| status := 200; text := Some (lit "abc123") |}
  /\ segment (lit "abc123") = true
  /\ browse sample_location (sample_net "abc123") [lit "/"; lit "/abc123"]
     = {| coordinatorUrl := lit "wss://sqlsync.orbitinghail.workers.dev";
          events := [Fetched req];
          shown := Some (Returned (Rendered (App (lit "abc123")))) |}.
Proof.
  intros req. split; [reflexivity | split; [reflexivity |]].
  exact (proj2 (create_then_open sample_location (sample_net "abc123")
                  {| status := 200; text := Some (lit "abc123") |}
                  (lit "abc123") (lit "abc123")
                  eq_refl eq_refl eq_refl eq_refl eq_refl)).
Defined.

Lemma blank_named_is_root_witness :
  segment (lit " ") = true /\ blank (lit " ") = true
  /\ run (sample_net "abc123") (navigate sample_location (lit "/named/ ")) []
     = run (sample_net "abc123") (navigate sample_location (lit "/")) [].
Proof.
  split; [reflexivity | split; [reflexivity |]].
  exact (blank_named_is_root sample_location (sample_net "abc123") (lit " ") []
           eq_refl eq_refl).
Defined.
